(** * A shallow embedding of the library manager (xyz.cpp)

    The program keeps a repository of books, writes it to a flat text
    file (one record per line, fields separated by a vertical bar) and
    reads it back at start-up; a controller owns the repository, the
    identity counter and an autosave thread.

    Layout of this development:
    - [Cxx]        the parts of the C++ standard library the program
                   calls: exceptions, [getline], [find_first_not_of],
                   [substr], [to_string], [stoull], [stoi], file streams;
    - [Util]       [trim] and [split];
    - [BookModel]  the [Book] class with [serialize] / [deserialize];
    - [Repository] the generic repository (a section over the item
                   contract) with [save_to_file] / [load_from_file];
    - [Library]    the controller's constructor (identity seeding);
    - [Autosave]   the interleavings of the autosave thread and of the
                   destructor, as a step function driven by a schedule;
    - [Notions]    the predicates and sample data the statements use;
    - [Device]     saving to storage that may refuse writes;
    - [FieldNotions] fields and numbers told without the program's own
                   functions;
    - the properties: strings and conversions, books, saving, loading,
      identity seeding, shutdown, and the theorems at concrete inputs.

    Integers are [Z] with the wrap-around of the C++ type written out;
    [std::string] is [string] (a sequence of 8-bit characters). *)

From Stdlib Require Import String Ascii List ZArith Lia Bool Arith.
From Equations Require Import Equations.
Import ListNotations.

Local Open Scope string_scope.
Local Open Scope list_scope.

(* ===================================================================== *)
(** ** The C++ standard library, as far as the program uses it *)
(* ===================================================================== *)

Module Cxx.

(** The exceptions the program throws or receives.  All three classes
    derive from [std::exception]; each carries the message it was built
    with. *)
Inductive exception : Type :=
| runtime_error (msg : string)
| invalid_argument (msg : string)
| out_of_range (msg : string).

(** The message an exception was built with. *)
Definition message (e : exception) : string :=
  match e with
  | runtime_error m => m
  | invalid_argument m => m
  | out_of_range m => m
  end.

(** The text of a C string kept in [s]: it ends before the first NUL. *)
Fixpoint c_str (s : string) : string :=
  match s with
  | EmptyString => EmptyString
  | String c r => if Ascii.eqb c zero then EmptyString else String c (c_str r)
  end.

(** [e.what()] is a [const char *]: what a reader of it sees, such as
    [cerr << e.what()], is the message up to its first NUL. *)
Definition what (e : exception) : string := c_str (message e).

(** A computation either returns normally or leaves by an exception. *)
Inductive Result (A : Type) : Type :=
| Ok (a : A)
| Throw (e : exception).
Arguments Ok {A} a.
Arguments Throw {A} e.

Definition bind {A B} (m : Result A) (k : A -> Result B) : Result B :=
  match m with
  | Ok a => k a
  | Throw e => Throw e
  end.

(** [try { body } catch (exception &e) { handler }]: every exception of
    the model is a [std::exception], so the handler takes them all. *)
Definition try_catch {A} (body : Result A) (handler : exception -> Result A)
  : Result A :=
  match body with
  | Ok a => Ok a
  | Throw e => handler e
  end.

Definition throws {A} (m : Result A) : bool :=
  match m with Ok _ => false | Throw _ => true end.

Notation "x <- m ;; k" := (bind m (fun x => k))
  (at level 61, m at next level, right associativity).

(** Characters the program names. *)
Definition ch_nl : ascii := "010"%char.
Definition ch_tab : ascii := "009"%char.
Definition ch_cr : ascii := "013"%char.
Definition ch_vt : ascii := "011"%char.
Definition ch_ff : ascii := "012"%char.
Definition ch_bar : ascii := "|"%char.
Definition ch_slash : ascii := "/"%char.

Definition endl : string := String ch_nl EmptyString.

Fixpoint mem_char (c : ascii) (set : string) : bool :=
  match set with
  | EmptyString => false
  | String d set' => Ascii.eqb c d || mem_char c set'
  end.

Fixpoint all_chars (p : ascii -> bool) (s : string) : bool :=
  match s with
  | EmptyString => true
  | String c s' => p c && all_chars p s'
  end.

Definition has_char (c : ascii) (s : string) : bool :=
  negb (all_chars (fun d => negb (Ascii.eqb d c)) s).

Definition empty (s : string) : bool :=
  match s with EmptyString => true | _ => false end.

(** [s.find_first_not_of(set)]; [None] stands for [npos]. *)
Fixpoint find_first_not_of (s set : string) : option nat :=
  match s with
  | EmptyString => None
  | String c s' =>
      if mem_char c set then option_map S (find_first_not_of s' set)
      else Some 0
  end.

(** [s.find_last_not_of(set)]; [None] stands for [npos]. *)
Fixpoint find_last_not_of (s set : string) : option nat :=
  match s with
  | EmptyString => None
  | String c s' =>
      match find_last_not_of s' set with
      | Some i => Some (S i)
      | None => if mem_char c set then None else Some 0
      end
  end.

(** [s.substr(pos, n)] for [pos <= s.size()]: at most [n] characters. *)
Definition substr (s : string) (pos n : nat) : string := substring pos n s.

(** One call of [getline(in, cur, delim)] on a stream whose unread input
    is [inp]: the characters up to the delimiter (which is consumed and
    dropped) or up to the end of input. *)
Fixpoint getline_chars (inp : string) (delim : ascii) : string * string :=
  match inp with
  | EmptyString => (EmptyString, EmptyString)
  | String c rest =>
      if Ascii.eqb c delim then (EmptyString, rest)
      else let '(cur, rest') := getline_chars rest delim in
           (String c cur, rest')
  end.

(** The call fails (the stream converts to [false]) exactly when nothing
    at all could be extracted, that is at end of input. *)
Definition getline (inp : string) (delim : ascii) : option (string * string) :=
  match inp with
  | EmptyString => None
  | _ => Some (getline_chars inp delim)
  end.

Lemma getline_chars_length inp delim :
  String.length (snd (getline_chars inp delim)) <= String.length inp.
Proof.
  induction inp as [|c rest IH]; simpl; [lia|].
  destruct (Ascii.eqb c delim); simpl; [lia|].
  destruct (getline_chars rest delim) as [cur rest']; simpl in *. lia.
Qed.

Lemma getline_shrinks inp delim cur rest :
  getline inp delim = Some (cur, rest) ->
  String.length rest < String.length inp.
Proof.
  destruct inp as [|c inp']; [discriminate|].
  unfold getline. intros H. injection H as H.
  simpl in H. destruct (Ascii.eqb c delim).
  - injection H as _ <-. simpl. lia.
  - pose proof (getline_chars_length inp' delim) as L.
    destruct (getline_chars inp' delim) as [cur' rest'].
    injection H as _ <-. simpl in *. lia.
Qed.

(** Keeps the equation of a scrutinee next to its value. *)
Definition inspect {A : Type} (a : A) : {b : A | a = b} := exist _ a eq_refl.

(** [while (getline(in, cur, delim)) ...]: the values [cur] takes, in
    order, until the call fails. *)
Equations getlines (inp : string) (delim : ascii) : list string
  by wf (String.length inp) lt :=
  getlines inp delim with inspect (getline inp delim) := {
    | exist _ (Some (cur, rest)) H => cur :: getlines rest delim;
    | exist _ None _ => [] }.
Next Obligation.
  eapply getline_shrinks; eauto.
Qed.

Definition lacks (c : ascii) (s : string) : bool :=
  all_chars (fun d => negb (Ascii.eqb d c)) s.

(** *** Numeric conversions *)

Definition ULLONG_MAX : Z := 2 ^ 64 - 1.
Definition INT_MIN : Z := - 2 ^ 31.
Definition INT_MAX : Z := 2 ^ 31 - 1.

(** [unsigned long long] arithmetic is modulo 2^64. *)
Definition wrap_ull (n : Z) : Z := n mod 2 ^ 64.

Definition digit_char (d : Z) : ascii := ascii_of_nat (48 + Z.to_nat d).

Definition isdigit (c : ascii) : bool :=
  let n := nat_of_ascii c in (48 <=? n)%nat && (n <=? 57)%nat.

Definition digit_value (c : ascii) : Z := Z.of_nat (nat_of_ascii c) - 48.

(** [isspace] in the "C" locale. *)
Definition isspace (c : ascii) : bool :=
  mem_char c
    (String " " (String ch_tab (String ch_nl
       (String ch_vt (String ch_ff (String ch_cr EmptyString)))))).

(** Decimal digits of a non-negative number, most significant first,
    written in front of [acc]; [fuel] bounds the number of digits. *)
Fixpoint to_chars (fuel : nat) (n : Z) (acc : string) : string :=
  match fuel with
  | O => acc
  | S fuel' =>
      let acc' := String (digit_char (n mod 10)) acc in
      if (n / 10 =? 0)%Z then acc' else to_chars fuel' (n / 10) acc'
  end.

(** [std::to_string(unsigned long long)]: at most 20 digits. *)
Definition to_string_ull (n : Z) : string := to_chars 20 n EmptyString.

(** [std::to_string(int)]: a sign and at most 10 digits. *)
Definition to_string_int (n : Z) : string :=
  if (n <? 0)%Z then String "-" (to_chars 10 (- n) EmptyString)
  else to_chars 10 n EmptyString.

Fixpoint skip_space (s : string) : string :=
  match s with
  | EmptyString => EmptyString
  | String c r => if isspace c then skip_space r else s
  end.

(** The value of the longest prefix of decimal digits, continuing [acc]. *)
Fixpoint scan_digits (s : string) (acc : Z) : Z :=
  match s with
  | EmptyString => acc
  | String c r =>
      if isdigit c then scan_digits r (acc * 10 + digit_value c)%Z else acc
  end.

Definition starts_with_digit (s : string) : bool :=
  match s with
  | EmptyString => false
  | String c _ => isdigit c
  end.

(** The subject sequence of [strtol] / [strtoull] in base 10: white
    space, an optional sign, then at least one digit; what follows the
    digits is ignored.  [None] when there is no digit to convert;
    otherwise the sign and the magnitude. *)
Definition subject (s : string) : option (bool * Z) :=
  let s1 := skip_space s in
  let '(neg, s2) :=
    match s1 with
    | String c r =>
        if Ascii.eqb c "-" then (true, r)
        else if Ascii.eqb c "+" then (false, r)
        else (false, s1)
    | EmptyString => (false, s1)
    end in
  if starts_with_digit s2 then Some (neg, scan_digits s2 0%Z) else None.

(** [std::stoull(s)]: no conversion is [invalid_argument], a magnitude
    above [ULLONG_MAX] is [out_of_range], and a minus sign negates the
    value in the unsigned type. *)
Definition stoull (s : string) : Result Z :=
  match subject s with
  | None => Throw (invalid_argument "stoull")
  | Some (neg, m) =>
      if (m >? ULLONG_MAX)%Z then Throw (out_of_range "stoull")
      else Ok (if neg then wrap_ull (- m) else m)
  end.

(** [std::stoi(s)]: no conversion is [invalid_argument], a value outside
    [int] is [out_of_range]. *)
Definition stoi (s : string) : Result Z :=
  match subject s with
  | None => Throw (invalid_argument "stoi")
  | Some (neg, m) =>
      let v := if neg then (- m)%Z else m in
      if ((v <? INT_MIN) || (v >? INT_MAX))%Z then Throw (out_of_range "stoi")
      else Ok v
  end.

(** *** File streams

    The file system maps a path to the bytes stored there, if a file
    exists, and says for which paths opening for output fails (a
    read-only file, a directory that is missing or cannot be written).
    An existing file can always be opened for input, and a stream that
    opened for output accepts every write; [Device] below has the
    storage that refuses writes, and [Device.put] the write that fails. *)
Record filesystem : Type := {
  content : string -> option string;
  write_protected : string -> bool
}.

Definition put_file (fs : filesystem) (name data : string) : filesystem :=
  {| content := fun p => if String.eqb p name then Some data else content fs p;
     write_protected := write_protected fs |}.

Inductive openmode : Type := ios_trunc | ios_app.

(** [ofstream fout(name, mode)]: [None] when [!fout]; otherwise the file
    exists afterwards, emptied under [ios::trunc]. *)
Definition ofstream_open (fs : filesystem) (name : string) (mode : openmode)
  : option filesystem :=
  if write_protected fs name then None
  else Some (put_file fs name
               match mode, content fs name with
               | ios_app, Some old => old
               | _, _ => EmptyString
               end).

(** [fout << s] on the open stream for [name]. *)
Definition ofstream_write (fs : filesystem) (name s : string) : filesystem :=
  put_file fs name
    match content fs name with
    | Some old => old ++ s
    | None => s
    end.

(** [ifstream fin(name)]: [None] when [!fin], otherwise the input. *)
Definition ifstream_open (fs : filesystem) (name : string) : option string :=
  content fs name.

End Cxx.

(* ===================================================================== *)
(** ** Utilities *)
(* ===================================================================== *)

Module Util.
Import Cxx.

Definition trim_set : string :=
  String " " (String ch_tab (String ch_cr (String ch_nl EmptyString))).

(** [trim]: the text between the first and the last character that is
    not a blank, a tab, a carriage return or a line feed.  The second
    search cannot fail once the first has succeeded ([find_last_some]);
    the branch is written as the C++ arithmetic on [npos] makes it, the
    rest of the string. *)
Definition trim (s : string) : string :=
  match find_first_not_of s trim_set with
  | None => EmptyString
  | Some a =>
      match find_last_not_of s trim_set with
      | Some b => substr s a (b - a + 1)
      | None => substr s a (String.length s)
      end
  end.

(** [split]: the loop pushes every value [getline] yields. *)
Definition split (s : string) (delim : ascii) : list string :=
  getlines s delim.

End Util.

(* ===================================================================== *)
(** ** The Book class *)
(* ===================================================================== *)

Module BookModel.
Import Cxx Util.

(** [id_] is an [unsigned long long], [year_] an [int]. *)
Record Book : Type := {
  id_ : Z;
  title_ : string;
  author_ : string;
  year_ : Z;
  checked_out_ : bool
}.

(** The values the C++ types of the two numeric members can hold. *)
Definition well_typed (b : Book) : Prop :=
  (0 <= id_ b <= ULLONG_MAX)%Z /\ (INT_MIN <= year_ b <= INT_MAX)%Z.

(** [Book(id, title, author, year)]: a new book is not checked out. *)
Definition make_book (id : Z) (title author : string) (year : Z) : Book :=
  {| id_ := id; title_ := title; author_ := author; year_ := year;
     checked_out_ := false |}.

Definition set_checked_out (b : Book) (v : bool) : Book :=
  {| id_ := id_ b; title_ := title_ b; author_ := author_ b;
     year_ := year_ b; checked_out_ := v |}.

(** [std::replace(r.begin(), r.end(), old, new)]. *)
Fixpoint replace (s : string) (old new : ascii) : string :=
  match s with
  | EmptyString => EmptyString
  | String c r =>
      String (if Ascii.eqb c old then new else c) (replace r old new)
  end.

(** The lambda [safe] of [serialize]. *)
Definition safe (s : string) : string := replace s ch_bar ch_slash.

(** [serialize]: id|title|author|year|checked. *)
Definition serialize (b : Book) : string :=
  to_string_ull (id_ b) ++ "|" ++ safe (title_ b) ++ "|" ++
  safe (author_ b) ++ "|" ++ to_string_int (year_ b) ++ "|" ++
  (if checked_out_ b then "1" else "0").

Definition deserialize (line : string) : Result Book :=
  let parts := split line ch_bar in
  if (List.length parts <? 5)%nat
  then Throw (runtime_error ("Bad record: " ++ line))
  else
    id <- stoull (nth 0 parts EmptyString) ;;
    let title := nth 1 parts EmptyString in
    let author := nth 2 parts EmptyString in
    year <- stoi (nth 3 parts EmptyString) ;;
    let checked := String.eqb (nth 4 parts EmptyString) "1" in
    let b := make_book id title author year in
    Ok (if checked then set_checked_out b true else b).

(** What a book looks like after the substitution [serialize] makes in
    its two text members. *)
Definition escaped (b : Book) : Book :=
  {| id_ := id_ b; title_ := safe (title_ b); author_ := safe (author_ b);
     year_ := year_ b; checked_out_ := checked_out_ b |}.

(** [check_out] and [return_back]: each throws when the book is already
    in the state asked for. *)
Definition check_out (b : Book) : Result Book :=
  if checked_out_ b then Throw (runtime_error "Book already checked out")
  else Ok (set_checked_out b true).

Definition return_back (b : Book) : Result Book :=
  if checked_out_ b then Ok (set_checked_out b false)
  else Throw (runtime_error "Book is not checked out").

End BookModel.

(* ===================================================================== *)
(** ** The generic repository *)
(* ===================================================================== *)

Module Repository.
Import Cxx Util.

(** What the template asks of its parameter: [T::id_t] and [id()],
    [serialize()], and the static [T::deserialize(line)]. *)
Class Item (T : Type) : Type := {
  id : T -> Z;
  serialize : T -> string;
  deserialize : string -> Result T
}.

Section Repo.
Context {T : Type} `{Item T}.

(** The state of a repository is [items_], in insertion order.  Every
    member function holds [lock_] from its first statement to its last,
    so each is one atomic step on this state. *)
Definition add (items_ : list T) (obj : T) : list T := items_ ++ [obj].

(** The member template [remove_if] is left out: in its body the
    unqualified call [remove_if(items_.begin(), items_.end(), ...)] names
    the member itself, which takes one argument, so the template has no
    instantiation and nothing to run. *)

Definition find_all (items_ : list T) (p : T -> bool) : list T :=
  filter p items_.

Definition find_by_id (items_ : list T) (i : Z) : option T :=
  find (fun u => Z.eqb (id u) i) items_.

Definition all (items_ : list T) : list T := items_.

(** [for (auto &u : items_) fout << u->serialize() << "\n";] *)
Definition write_items (filename : string) (items_ : list T)
  (fs : filesystem) : filesystem :=
  fold_left
    (fun fs u =>
       ofstream_write (ofstream_write fs filename (serialize u)) filename endl)
    items_ fs.

Definition save_to_file (fs : filesystem) (filename : string)
  (items_ : list T) : Result filesystem :=
  match ofstream_open fs filename ios_trunc with
  | None =>
      Throw (runtime_error ("Failed to open " ++ filename ++ " for writing"))
  | Some fs' => Ok (write_items filename items_ fs')
  end.

(** The body of the loop of [load_from_file], on the pair of [items_]
    and of the messages written to [cerr] so far. *)
Definition load_line (line : string) (st : list T * list string)
  : Result (list T * list string) :=
  let '(items_, cerr) := st in
  let line := trim line in
  if empty line then Ok st
  else
    try_catch
      (p <- deserialize line ;; Ok (items_ ++ [p], cerr))
      (fun e =>
         Ok (items_,
             cerr ++ [("Warning: skipping bad record: " ++ what e ++ endl)%string])).

Fixpoint load_lines (lines : list string) (st : list T * list string)
  : Result (list T * list string) :=
  match lines with
  | [] => Ok st
  | line :: more => st' <- load_line line st ;; load_lines more st'
  end.

(** [load_from_file]: returns at once when the file cannot be opened;
    otherwise clears [items_] and runs the loop over the lines that
    [getline(fin, line)] yields.  The result is the new [items_] and the
    messages written to [cerr]. *)
Definition load_from_file (fs : filesystem) (filename : string)
  (items_ : list T) : Result (list T * list string) :=
  match ifstream_open fs filename with
  | None => Ok (items_, [])
  | Some fin => load_lines (getlines fin ch_nl) ([], [])
  end.

End Repo.
End Repository.

#[export] Instance Book_Item : Repository.Item BookModel.Book := {|
  Repository.id := BookModel.id_;
  Repository.serialize := BookModel.serialize;
  Repository.deserialize := BookModel.deserialize
|}.

(* ===================================================================== *)
(** ** The controller *)
(* ===================================================================== *)

Module Library.
Import Cxx Util BookModel.

(** Modelled from the spec: the member declarations of [Library] are not
    in the source, which ends inside the destructor.  The members are
    those the constructor and the destructor name; the identity counter
    has the identity type [Book::id_t] (an unsigned 64-bit integer), and
    the repository holds books. *)
Record Library : Type := {
  dbfile_ : string;
  next_id_ : Z;
  repo_ : list Book;
  stop_autosave_ : bool
}.

(** [for (auto p : all) if (p->id() >= next_id_) next_id_ = p->id() + 1;]
    with the addition in [unsigned long long]. *)
Definition seed_next_id (all : list Book) (next_id : Z) : Z :=
  fold_left
    (fun next p => if (id_ p >=? next)%Z then wrap_ull (id_ p + 1) else next)
    all next_id.

(** The constructor up to the start of the autosave thread: the
    controller it builds and what the load wrote to [cerr]. *)
Definition construct (fs : filesystem) (dbfile : string)
  : Result (Library * list string) :=
  loaded <- Repository.load_from_file fs dbfile [] ;;
  let all := Repository.all (fst loaded) in
  Ok ({| dbfile_ := dbfile;
         next_id_ := seed_next_id all 1;
         repo_ := fst loaded;
         stop_autosave_ := false |}, snd loaded).

(** Modelled from the spec: [Library::save] is not in the source; the
    spec has the background loop call [save_to] against the configured
    path. *)
Definition save (lib : Library) (fs : filesystem) : Result filesystem :=
  Repository.save_to_file fs (dbfile_ lib) (repo_ lib).

End Library.

(* ===================================================================== *)
(** ** The autosave thread and the destructor *)
(* ===================================================================== *)

Module Autosave.
Import Cxx.

Section Threads.

(** What the threads share besides the stop flag (the repository, the
    file system), and the effect of one call of [save()] on it. *)
Variable World : Type.
Variable save : World -> Result World.

(** Where the autosave thread stands in
    [while (!stop_autosave_.load()) { sleep_for(10s); try { save(); } catch ... }]. *)
Inductive thread_pc : Type :=
| AtCondition
| AtSleep
| AtSave
| Exited.

(** Where the owner of the controller stands.  Modelled from the spec:
    the source ends in the middle of the destructor's second statement,
    [if (autosave_thread_.joinable()) autosa...]; it is taken to be the
    join the spec describes, which returns once the thread has exited. *)
Inductive owner_pc : Type :=
| Running
| AtJoin
| Destroyed.

Inductive event : Type :=
| EvWake
| EvSave
| EvSaveFailed
| EvStop
| EvJoined.

(** [trace] lists the events, the latest first. *)
Record state : Type := {
  tpc : thread_pc;
  opc : owner_pc;
  stop_autosave_ : bool;
  world : World;
  cerr : list string;
  trace : list event
}.

Definition init (w : World) : state :=
  {| tpc := AtCondition; opc := Running; stop_autosave_ := false;
     world := w; cerr := []; trace := [] |}.

(** Who moves next: the autosave thread, the destructor, or the owner
    doing something else to the shared data while the controller lives. *)
Inductive move : Type :=
| Thread
| Destructor
| Foreground (f : World -> World).

Definition thread_step (st : state) : option state :=
  match tpc st with
  | AtCondition =>
      Some {| tpc := if stop_autosave_ st then Exited else AtSleep;
              opc := opc st; stop_autosave_ := stop_autosave_ st;
              world := world st; cerr := cerr st; trace := trace st |}
  | AtSleep =>
      Some {| tpc := AtSave;
              opc := opc st; stop_autosave_ := stop_autosave_ st;
              world := world st; cerr := cerr st;
              trace := EvWake :: trace st |}
  | AtSave =>
      match save (world st) with
      | Ok w' =>
          Some {| tpc := AtCondition;
                  opc := opc st; stop_autosave_ := stop_autosave_ st;
                  world := w'; cerr := cerr st;
                  trace := EvSave :: trace st |}
      | Throw e =>
          Some {| tpc := AtCondition;
                  opc := opc st; stop_autosave_ := stop_autosave_ st;
                  world := world st;
                  cerr := cerr st ++ [("Autosave error: " ++ what e ++ endl)%string];
                  trace := EvSaveFailed :: trace st |}
      end
  | Exited => None
  end.

Definition destructor_step (st : state) : option state :=
  match opc st with
  | Running =>
      Some {| tpc := tpc st; opc := AtJoin; stop_autosave_ := true;
              world := world st; cerr := cerr st;
              trace := EvStop :: trace st |}
  | AtJoin =>
      match tpc st with
      | Exited =>
          Some {| tpc := tpc st; opc := Destroyed;
                  stop_autosave_ := stop_autosave_ st;
                  world := world st; cerr := cerr st;
                  trace := EvJoined :: trace st |}
      | _ => None
      end
  | Destroyed => None
  end.

Definition foreground_step (f : World -> World) (st : state) : option state :=
  match opc st with
  | Running =>
      Some {| tpc := tpc st; opc := opc st;
              stop_autosave_ := stop_autosave_ st;
              world := f (world st); cerr := cerr st; trace := trace st |}
  | _ => None
  end.

Definition step (m : move) (st : state) : option state :=
  match m with
  | Thread => thread_step st
  | Destructor => destructor_step st
  | Foreground f => foreground_step f st
  end.

(** A schedule is a list of moves; a move that is not enabled (a thread
    that has exited, a join that still waits) leaves the state as it is. *)
Fixpoint run (sched : list move) (st : state) : state :=
  match sched with
  | [] => st
  | m :: more =>
      match step m st with
      | Some st' => run more st'
      | None => run more st
      end
  end.

Definition is_save (e : event) : bool :=
  match e with
  | EvSave | EvSaveFailed => true
  | _ => false
  end.

Definition is_wake (e : event) : bool :=
  match e with EvWake => true | _ => false end.

Definition is_stop (e : event) : bool :=
  match e with EvStop => true | _ => false end.

Definition is_joined (e : event) : bool :=
  match e with EvJoined => true | _ => false end.

(** The number of events that satisfy [counted] and came after the first
    event that satisfies [mark]; 0 when there is no such event. *)
Fixpoint count_after (mark counted : event -> bool) (tr : list event) : nat :=
  match tr with
  | [] => 0
  | e :: older =>
      if mark e then 0
      else if existsb mark older
           then (if counted e then 1 else 0) + count_after mark counted older
           else 0
  end.

(** The number of calls of [save()] after the stop flag was set. *)
Definition saves_after_stop (tr : list event) : nat :=
  count_after is_stop is_save tr.

(** The number of calls of [save()] after the join returned. *)
Definition saves_after_join (tr : list event) : nat :=
  count_after is_joined is_save tr.

(** The calls of [save()] the thread is still bound to make before it
    tests the flag again. *)
Definition saves_due (pc : thread_pc) : nat :=
  match pc with
  | AtSleep | AtSave => 1
  | AtCondition | Exited => 0
  end.

(** Some return of [sleep_for] in [tr] came after the stop flag was set. *)
Fixpoint woken_after_stop (tr : list event) : bool :=
  match tr with
  | [] => false
  | e :: older =>
      (is_wake e && existsb is_stop older) || woken_after_stop older
  end.

(** The number of calls of [save()] made after the thread woke with the
    stop flag already set (a save that was under way when the flag was
    set is not counted). *)
Fixpoint saves_after_wake (tr : list event) : nat :=
  match tr with
  | [] => 0
  | e :: older =>
      (if is_save e && woken_after_stop older then 1 else 0)
      + saves_after_wake older
  end.

(** Once the stop flag is set, the thread leaves at its next wake
    without another call of [save()]. *)
Definition exits_without_save (w : World) (sched : list move) : Prop :=
  saves_after_wake (trace (run sched (init w))) = 0.

(** What holds in every state the two threads can reach. *)
Definition invariant (st : state) : Prop :=
  match opc st with
  | Running =>
      stop_autosave_ st = false /\
      existsb is_stop (trace st) = false /\
      existsb is_joined (trace st) = false
  | AtJoin =>
      stop_autosave_ st = true /\
      existsb is_stop (trace st) = true /\
      existsb is_joined (trace st) = false /\
      saves_after_stop (trace st) + saves_due (tpc st) <= 1
  | Destroyed =>
      stop_autosave_ st = true /\
      tpc st = Exited /\
      saves_after_stop (trace st) <= 1 /\
      saves_after_join (trace st) = 0
  end.

End Threads.

Arguments tpc {World} s.
Arguments opc {World} s.
Arguments stop_autosave_ {World} s.
Arguments world {World} s.
Arguments cerr {World} s.
Arguments trace {World} s.
Arguments init {World} w.
Arguments Thread {World}.
Arguments Destructor {World}.
Arguments Foreground {World} f.
Arguments thread_step {World} save st.
Arguments destructor_step {World} st.
Arguments foreground_step {World} f st.
Arguments step {World} save m st.
Arguments run {World} save sched st.
Arguments exits_without_save {World} save w sched.
Arguments invariant {World} st.

End Autosave.

(* ===================================================================== *)
(** ** Notions used to state the properties *)
(* ===================================================================== *)

Module Notions.
Import Cxx Util BookModel.

Section ForItems.
Context {T : Type} `{Repository.Item T}.

(** The text of a repository: the text of each record followed by a
    line feed, in the order of [items_]. *)
Fixpoint file_text (items_ : list T) : string :=
  match items_ with
  | [] => EmptyString
  | u :: more => Repository.serialize u ++ endl ++ file_text more
  end.

(** A line that yields a record, and a line that yields a warning. *)
Definition well_formed_line (line : string) (u : T) : Prop :=
  empty (trim line) = false /\ Repository.deserialize (trim line) = Ok u.

Definition malformed_line (line : string) (e : exception) : Prop :=
  empty (trim line) = false /\ Repository.deserialize (trim line) = Throw e.

(** The lines of a text that [load_from_file] does not skip as blank. *)
Definition record_lines (text : string) : list string :=
  filter (fun line => negb (empty (trim line))) (getlines text ch_nl).

Definition warning (e : exception) : string :=
  "Warning: skipping bad record: " ++ what e ++ endl.

(** Loading a missing source leaves the repository empty, whatever it
    held before. *)
Definition missing_source_leaves_empty (fs : filesystem) (filename : string)
  (prior : list T) : Prop :=
  content fs filename = None ->
  exists cerr, Repository.load_from_file fs filename prior = Ok ([], cerr).

End ForItems.

(** Saving [items_] to [filename] and loading the file again gives the
    records [expected]. *)
Definition save_then_load (fs : filesystem) (filename : string)
  (items_ expected : list Book) : Prop :=
  exists fs' cerr,
    Repository.save_to_file fs filename items_ = Ok fs' /\
    Repository.load_from_file fs' filename [] = Ok (expected, cerr).

Definition no_line_feed (b : Book) : Prop :=
  lacks ch_nl (title_ b) = true /\ lacks ch_nl (author_ b) = true.

(** The largest identity of a list of books, 0 for the empty list. *)
Definition max_id (books : list Book) : Z :=
  fold_right Z.max 0%Z (map id_ books).

(** The counter after construction is one more than the largest loaded
    identity. *)
Definition seeded_past_max (fs : filesystem) (dbfile : string) : Prop :=
  forall lib cerr,
    Library.construct fs dbfile = Ok (lib, cerr) ->
    Library.next_id_ lib = (1 + max_id (Library.repo_ lib))%Z.

(** A file system with one file, which can be written. *)
Definition single_file (name data : string) : filesystem :=
  {| content := fun p => if String.eqb p name then Some data else None;
     write_protected := fun _ => false |}.

(** A file system without any file; [locked] tells whether files can be
    created. *)
Definition no_files (locked : bool) : filesystem :=
  {| content := fun _ => None; write_protected := fun _ => locked |}.

(** Sample data. *)
Definition db : string := "library_db.txt".

Definition dune : Book :=
  {| id_ := 1; title_ := "Dune"; author_ := "Herbert"; year_ := 1965;
     checked_out_ := false |}.

Definition barred : Book :=
  {| id_ := 2; title_ := "A|B"; author_ := "C|D"; year_ := -5;
     checked_out_ := true |}.

Definition two_line_book : Book :=
  {| id_ := 1; title_ := "a" ++ endl ++ "b"; author_ := "x"; year_ := 2000;
     checked_out_ := false |}.

Definition empty_library : Library.Library :=
  {| Library.dbfile_ := db; Library.next_id_ := 1; Library.repo_ := [];
     Library.stop_autosave_ := false |}.

End Notions.

From Stdlib Require Import Permutation.

(* ===================================================================== *)
(** ** Further notions: text, fields, events *)
(* ===================================================================== *)

Module TextNotions.
Import Cxx Util.

Definition blank (c : ascii) : bool := mem_char c trim_set.

Definition first_char (s : string) : option ascii :=
  match s with
  | EmptyString => None
  | String c _ => Some c
  end.

Fixpoint last_char (s : string) : option ascii :=
  match s with
  | EmptyString => None
  | String c r =>
      match last_char r with
      | Some d => Some d
      | None => Some c
      end
  end.

Definition ends_with (d : ascii) (s : string) : bool :=
  match last_char s with
  | Some c => Ascii.eqb c d
  | None => false
  end.

Fixpoint count_char (d : ascii) (s : string) : nat :=
  match s with
  | EmptyString => 0
  | String c r => (if Ascii.eqb c d then 1 else 0) + count_char d r
  end.

(** The fields with the delimiter between them. *)
Fixpoint join (d : ascii) (fields : list string) : string :=
  match fields with
  | [] => EmptyString
  | [f] => f
  | f :: more => f ++ String d (join d more)
  end.

(** The fields with the delimiter after each of them. *)
Fixpoint terminated (d : ascii) (fields : list string) : string :=
  match fields with
  | [] => EmptyString
  | f :: more => f ++ String d (terminated d more)
  end.

(** Leading blanks dropped; trailing blanks dropped. *)
Fixpoint ltrim (s : string) : string :=
  match s with
  | EmptyString => EmptyString
  | String c r => if blank c then ltrim r else s
  end.

Fixpoint rtrim (s : string) : string :=
  match s with
  | EmptyString => EmptyString
  | String c r =>
      match rtrim r with
      | EmptyString => if blank c then EmptyString else String c EmptyString
      | r' => String c r'
      end
  end.

End TextNotions.

Module BookNotions.
Import Cxx Util BookModel Notions.

(** A book as a file can hold it: numbers within their C++ types, and
    neither a vertical bar nor a line feed in title and author. *)
Definition clean (b : Book) : Prop :=
  well_typed b /\
  lacks ch_bar (title_ b) = true /\ lacks ch_bar (author_ b) = true /\
  no_line_feed b.

(** Sample sources. *)
Definition mixed_text : string :=
  "1|Dune|Herbert|1965|0" ++ endl ++ endl ++ "7|A|B" ++ endl ++ "x|T|A|1|0".

Definition messy_text : string :=
  "1|Dune|Herbert|1965|0" ++ endl ++ "oops" ++ endl ++ " 2|A/B|C|-5|1|more ".

End BookNotions.

Module AutosaveNotions.
Import Cxx Autosave.

Definition is_failed (e : event) : bool :=
  match e with EvSaveFailed => true | _ => false end.

Definition count_events (p : event -> bool) (tr : list event) : nat :=
  List.length (filter p tr).

(** The thread has woken and has not yet called [save()]. *)
Definition save_pending (pc : thread_pc) : nat :=
  match pc with
  | AtSave => 1
  | _ => 0
  end.

(** What the loop keeps, whatever [save()] does. *)
Definition loop_invariant {World : Type} (st : state World) : Prop :=
  (tpc st = Exited -> stop_autosave_ st = true) /\
  List.length (cerr st) = count_events is_failed (trace st) /\
  count_events is_wake (trace st) =
    count_events is_save (trace st) + save_pending (tpc st).

End AutosaveNotions.

(* ===================================================================== *)
(** ** Saving to storage that may refuse writes *)
(* ===================================================================== *)

Module Device.
Import Cxx.

(** Storage on which a file can open for output and still take no data:
    a full disk, a device such as /dev/full.  [refuses_writes] tells for
    which paths that is so. *)
Record storage : Type := {
  files : filesystem;
  refuses_writes : string -> bool
}.

(** Storage that takes every write. *)
Definition reliable (fs : filesystem) : storage :=
  {| files := fs; refuses_writes := fun _ => false |}.

(** An output stream: the path it was opened for, and whether it is
    still good. *)
Record ofstream : Type := {
  path : string;
  good : bool
}.

(** [ofstream fout(name, mode)]: the stream is not good when the file
    does not open. *)
Definition open (st : storage) (name : string) (mode : openmode)
  : storage * ofstream :=
  match ofstream_open (files st) name mode with
  | None => (st, {| path := name; good := false |})
  | Some fs' =>
      ({| files := fs'; refuses_writes := refuses_writes st |},
       {| path := name; good := true |})
  end.

(** [fout << s]: a stream that is not good does nothing; a write the
    storage refuses stores nothing and leaves the stream bad. *)
Definition put (sf : storage * ofstream) (s : string) : storage * ofstream :=
  if good (snd sf) then
    if refuses_writes (fst sf) (path (snd sf))
    then (fst sf, {| path := path (snd sf); good := false |})
    else ({| files := ofstream_write (files (fst sf)) (path (snd sf)) s;
             refuses_writes := refuses_writes (fst sf) |}, snd sf)
  else sf.

Section Save.
Context {T : Type} `{Repository.Item T}.

(** [save_to_file], statement by statement: the stream is tested after
    it is opened and never again. *)
Definition save_to_file (st : storage) (filename : string)
  (items_ : list T) : Result storage :=
  let opened := open st filename ios_trunc in
  if negb (good (snd opened))
  then Throw (runtime_error ("Failed to open " ++ filename ++ " for writing"))
  else
    Ok (fst (fold_left
               (fun sf u => put (put sf (Repository.serialize u)) endl)
               items_ opened)).

(** The sink cannot be written: it does not open, or it takes no data. *)
Definition cannot_be_written (st : storage) (filename : string) : bool :=
  write_protected (files st) filename || refuses_writes st filename.

(** [save_to_file] throws exactly when the sink cannot be written, and
    when it returns the file holds every record, one per line. *)
Definition throws_iff_unwritable (st : storage) (filename : string)
  (items_ : list T) : Prop :=
  (throws (save_to_file st filename items_) = true <->
   cannot_be_written st filename = true) /\
  (forall st',
     save_to_file st filename items_ = Ok st' ->
     content (files st') filename = Some (Notions.file_text items_) /\
     getlines (Notions.file_text items_) ch_nl =
       map Repository.serialize items_).

End Save.

(** A disk on which [library_db.txt] opens but takes no data. *)
Definition full_disk : storage :=
  {| files := Notions.single_file Notions.db "9|Old|Text|1900|0";
     refuses_writes := fun _ => true |}.

End Device.

(* ===================================================================== *)
(** ** Fields and numbers, told without the program's own functions *)
(* ===================================================================== *)

Module FieldNotions.
Import Cxx Util BookModel TextNotions.

(** The fields of a text cut at every delimiter: one more than there are
    delimiters, the last one empty when the text ends with a delimiter. *)
Fixpoint delimited (s : string) (d : ascii) : list string :=
  match s with
  | EmptyString => [EmptyString]
  | String c r =>
      if Ascii.eqb c d then EmptyString :: delimited r d
      else match delimited r d with
           | cur :: more => String c cur :: more
           | [] => [String c EmptyString]
           end
  end.

(** The number a row of decimal digits writes, by the place of each. *)
Fixpoint decimal_value (digits : string) : Z :=
  match digits with
  | EmptyString => 0%Z
  | String c r =>
      (digit_value c * 10 ^ Z.of_nat (String.length r) + decimal_value r)%Z
  end.

Definition sign_text (sign : string) (neg : bool) : Prop :=
  (sign = EmptyString /\ neg = false) \/
  (sign = "+"%string /\ neg = false) \/
  (sign = "-"%string /\ neg = true).

(** [s] begins with a number: white space, an optional sign, a row of
    digits that ends where [s] ends or a non-digit follows.  [neg] tells
    the sign and [m] the number the digits write. *)
Definition integer_prefix (s : string) (neg : bool) (m : Z) : Prop :=
  exists ws sign digits rest,
    s = (ws ++ sign ++ digits ++ rest)%string /\
    all_chars isspace ws = true /\
    sign_text sign neg /\
    digits <> EmptyString /\ all_chars isdigit digits = true /\
    starts_with_digit rest = false /\
    m = decimal_value digits.

(** A field that begins with a number an [unsigned long long] can hold
    (the sign apart), and one that begins with a number an [int] can
    hold. *)
Definition identity_text (s : string) : Prop :=
  exists neg m, integer_prefix s neg m /\ (m <= ULLONG_MAX)%Z.

Definition year_text (s : string) : Prop :=
  exists neg m,
    integer_prefix s neg m /\
    (INT_MIN <= (if neg then - m else m) <= INT_MAX)%Z.

(** Fewer than five fields, an empty field after a last bar not being
    counted. *)
Definition too_few_fields (line : string) : Prop :=
  count_char ch_bar line < 4 \/
  (count_char ch_bar line = 4 /\ ends_with ch_bar line = true).

(** A field that is an integer and nothing else: an optional sign and
    digits. *)
Definition whole_integer (s : string) : bool :=
  match s with
  | EmptyString => false
  | String c r =>
      if Ascii.eqb c "-" || Ascii.eqb c "+"
      then negb (empty r) && all_chars isdigit r
      else all_chars isdigit s
  end.

(** [deserialize] throws exactly when the line has fewer than five
    delimited fields or its first or fourth field is not an integer. *)
Definition throws_iff_malformed (line : string) : Prop :=
  throws (deserialize line) = true <->
  (List.length (delimited line ch_bar) < 5 \/
   whole_integer (nth 0 (delimited line ch_bar) EmptyString) = false \/
   whole_integer (nth 3 (delimited line ch_bar) EmptyString) = false).

(** The longest prefix whose characters satisfy [p], and what follows. *)
Fixpoint take_while (p : ascii -> bool) (s : string) : string :=
  match s with
  | EmptyString => EmptyString
  | String c r => if p c then String c (take_while p r) else EmptyString
  end.

Fixpoint drop_while (p : ascii -> bool) (s : string) : string :=
  match s with
  | EmptyString => EmptyString
  | String c r => if p c then drop_while p r else s
  end.

End FieldNotions.

(* ===================================================================== *)
(** * Properties of the model *)
(* ===================================================================== *)

Import Cxx Util BookModel.

(** ** The definitions on a few inputs *)

Example getlines_ex1 :
  getlines "a|b||c|" ch_bar = ["a"; "b"; EmptyString; "c"].
Proof. reflexivity. Qed.

Example stoull_ex1 : stoull "42" = Ok 42%Z.
Proof. reflexivity. Qed.
Example stoull_ex2 : stoull "  +7abc" = Ok 7%Z.
Proof. reflexivity. Qed.
Example stoull_ex3 : stoull "-1" = Ok 18446744073709551615%Z.
Proof. reflexivity. Qed.
Example stoull_ex4 : stoull "18446744073709551616" = Throw (out_of_range "stoull").
Proof. reflexivity. Qed.
Example stoull_ex5 : stoull "x1" = Throw (invalid_argument "stoull").
Proof. reflexivity. Qed.
Example stoi_ex1 : stoi "-2147483648" = Ok (-2147483648)%Z.
Proof. reflexivity. Qed.
Example stoi_ex2 : stoi "2147483648" = Throw (out_of_range "stoi").
Proof. reflexivity. Qed.
Example to_string_ex1 : to_string_ull 18446744073709551615 = "18446744073709551615".
Proof. reflexivity. Qed.
Example to_string_ex2 : to_string_int (-2147483648) = "-2147483648".
Proof. reflexivity. Qed.
Example to_string_ex3 : to_string_ull 0 = "0".
Proof. reflexivity. Qed.

Example trim_ex1 :
  trim (String ch_tab " a b " ++ String ch_cr endl) = "a b".
Proof. reflexivity. Qed.
Example trim_ex2 : trim "   " = EmptyString.
Proof. reflexivity. Qed.
Example split_ex1 : split "1|a|b|2|" ch_bar = ["1"; "a"; "b"; "2"].
Proof. reflexivity. Qed.
Example split_ex2 : split "1||b|2|0|x" ch_bar = ["1"; EmptyString; "b"; "2"; "0"; "x"].
Proof. reflexivity. Qed.
Example split_ex3 : split EmptyString ch_bar = [].
Proof. reflexivity. Qed.

Example serialize_ex1 :
  serialize (make_book 7 "A|B" "C D" (-5)) = "7|A/B|C D|-5|0".
Proof. reflexivity. Qed.
Example deserialize_ex1 :
  deserialize "7|A/B|C D|-5|1" =
  Ok {| id_ := 7; title_ := "A/B"; author_ := "C D"; year_ := -5;
        checked_out_ := true |}.
Proof. reflexivity. Qed.
Example deserialize_ex2 :
  deserialize "7|A|B|1999" = Throw (runtime_error "Bad record: 7|A|B|1999").
Proof. reflexivity. Qed.
Example deserialize_ex3 :
  deserialize "x|A|B|1999|0" = Throw (invalid_argument "stoull").
Proof. reflexivity. Qed.
Example deserialize_ex4 :
  deserialize "1|A|B|99999999999|0" = Throw (out_of_range "stoi").
Proof. reflexivity. Qed.


(** ** Strings, [getline] and the conversions *)

Lemma append_length (s t : string) :
  String.length (s ++ t) = String.length s + String.length t.
Proof. induction s as [|c s IH]; simpl; [reflexivity|]. rewrite IH. reflexivity. Qed.

Lemma append_assoc (s t u : string) : ((s ++ t) ++ u = s ++ (t ++ u))%string.
Proof. induction s as [|c s IH]; simpl; [reflexivity|]. rewrite IH. reflexivity. Qed.

Lemma append_empty_r (s : string) : (s ++ EmptyString)%string = s.
Proof. induction s as [|c s IH]; simpl; [reflexivity|]. rewrite IH. reflexivity. Qed.

Lemma all_chars_append p (s t : string) :
  all_chars p (s ++ t) = all_chars p s && all_chars p t.
Proof.
  induction s as [|c s IH]; simpl; [reflexivity|].
  rewrite IH. apply andb_assoc.
Qed.

(** One unfolding of the loop. *)
Lemma getlines_step inp delim :
  getlines inp delim =
  match getline inp delim with
  | Some (cur, rest) => cur :: getlines rest delim
  | None => []
  end.
Proof.
  funelim (getlines inp delim).
  - rewrite H. reflexivity.
  - rewrite e. reflexivity.
Qed.

Lemma getline_chars_delim cur delim rest :
  lacks delim cur = true ->
  getline_chars (cur ++ String delim rest) delim = (cur, rest).
Proof.
  induction cur as [|c cur IH]; simpl; intros H.
  - rewrite Ascii.eqb_refl. reflexivity.
  - apply andb_true_iff in H as [Hc H].
    apply negb_true_iff in Hc. rewrite Hc, (IH H). reflexivity.
Qed.

Lemma getline_chars_end cur delim :
  lacks delim cur = true ->
  getline_chars cur delim = (cur, EmptyString).
Proof.
  induction cur as [|c cur IH]; simpl; intros H; [reflexivity|].
  apply andb_true_iff in H as [Hc H].
  apply negb_true_iff in Hc. rewrite Hc, (IH H). reflexivity.
Qed.

Lemma getlines_nil delim : getlines EmptyString delim = [].
Proof. rewrite getlines_step. reflexivity. Qed.

Lemma getlines_delim cur delim rest :
  lacks delim cur = true ->
  getlines (cur ++ String delim rest) delim = cur :: getlines rest delim.
Proof.
  intros H. rewrite getlines_step. unfold getline.
  rewrite (getline_chars_delim _ _ _ H).
  destruct cur; reflexivity.
Qed.

Lemma getlines_end cur delim :
  lacks delim cur = true -> cur <> EmptyString ->
  getlines cur delim = [cur].
Proof.
  intros H Hne. rewrite getlines_step.
  destruct cur as [|c cur]; [contradiction|].
  unfold getline. rewrite (getline_chars_end _ _ H), getlines_nil.
  reflexivity.
Qed.

(** *** Facts about digits and the conversions *)

Lemma digit_char_spec d :
  (0 <= d < 10)%Z ->
  isdigit (digit_char d) = true /\ digit_value (digit_char d) = d.
Proof.
  intros H.
  assert (C : (d = 0 \/ d = 1 \/ d = 2 \/ d = 3 \/ d = 4 \/ d = 5 \/
              d = 6 \/ d = 7 \/ d = 8 \/ d = 9)%Z) by lia.
  repeat (destruct C as [-> | C]; [split; reflexivity|]).
  subst d. split; reflexivity.
Qed.

Lemma isdigit_class c :
  isdigit c = true ->
  isspace c = false /\ Ascii.eqb c "-" = false /\ Ascii.eqb c "+" = false /\
  Ascii.eqb c ch_bar = false /\ Ascii.eqb c ch_nl = false.
Proof.
  destruct c as [[] [] [] [] [] [] [] []]; vm_compute; intros H;
    try discriminate H; repeat split.
Qed.

Lemma to_chars_digits fuel : forall n acc,
  all_chars isdigit acc = true ->
  all_chars isdigit (to_chars fuel n acc) = true.
Proof.
  induction fuel as [|fuel IH]; intros n acc Hacc; cbn [to_chars];
    [exact Hacc|].
  assert (Hd : isdigit (digit_char (n mod 10)) = true).
  { apply digit_char_spec. apply Z.mod_pos_bound. lia. }
  destruct (n / 10 =? 0)%Z.
  - cbn [all_chars]. rewrite Hd, Hacc. reflexivity.
  - apply IH. cbn [all_chars]. rewrite Hd, Hacc. reflexivity.
Qed.

Lemma to_chars_nonempty fuel : forall n acc,
  (0 < fuel)%nat -> to_chars fuel n acc <> EmptyString.
Proof.
  induction fuel as [|fuel IH]; intros n acc Hf; [lia|]. cbn [to_chars].
  destruct (n / 10 =? 0)%Z eqn:E; [discriminate|].
  destruct fuel as [|fuel']; [cbn [to_chars]; discriminate|].
  apply IH. lia.
Qed.

(** Reading back what [to_chars] wrote gives the number again. *)
Lemma scan_to_chars fuel : forall n rest a,
  (0 < fuel)%nat -> (0 <= n < 10 ^ Z.of_nat fuel)%Z ->
  exists k, (0 <= k)%Z /\
    scan_digits (to_chars fuel n rest) a = scan_digits rest (a * 10 ^ k + n)%Z.
Proof.
  induction fuel as [|fuel IH]; intros n rest a Hf Hn; [lia|].
  cbn [to_chars].
  pose proof (Z.mod_pos_bound n 10 ltac:(lia)) as Hd.
  destruct (digit_char_spec _ Hd) as [Hdig Hval].
  pose proof (Z.div_mod n 10 ltac:(lia)) as Hdm.
  destruct (n / 10 =? 0)%Z eqn:E.
  - apply Z.eqb_eq in E. exists 1%Z. split; [lia|].
    cbn [scan_digits]. rewrite Hdig, Hval. f_equal. lia.
  - apply Z.eqb_neq in E.
    assert (Hq : (0 <= n / 10 < 10 ^ Z.of_nat fuel)%Z).
    { split; [apply Z.div_pos; lia|].
      apply Z.div_lt_upper_bound; [lia|].
      replace (Z.of_nat (S fuel)) with (1 + Z.of_nat fuel)%Z in Hn by lia.
      rewrite Z.pow_add_r in Hn by lia. lia. }
    assert (Hf' : (0 < fuel)%nat).
    { destruct fuel; [|lia]. change (10 ^ Z.of_nat 0)%Z with 1%Z in Hq. lia. }
    destruct (IH (n / 10)%Z (String (digit_char (n mod 10)) rest) a Hf' Hq)
      as [k [Hk Hs]].
    exists (k + 1)%Z. split; [lia|].
    rewrite Hs. cbn [scan_digits]. rewrite Hdig, Hval. f_equal.
    rewrite Z.pow_add_r by lia. lia.
Qed.

Lemma scan_to_chars_0 fuel n :
  (0 < fuel)%nat -> (0 <= n < 10 ^ Z.of_nat fuel)%Z ->
  scan_digits (to_chars fuel n EmptyString) 0 = n.
Proof.
  intros Hf Hn.
  destruct (scan_to_chars fuel n EmptyString 0%Z Hf Hn) as [k [_ Hs]].
  rewrite Hs. cbn [scan_digits]. lia.
Qed.

Lemma all_digits_head s :
  all_chars isdigit s = true -> s <> EmptyString -> starts_with_digit s = true.
Proof.
  destruct s as [|c s]; [contradiction|]. simpl.
  intros H _. apply andb_true_iff in H. apply H.
Qed.

Lemma subject_digits s :
  starts_with_digit s = true -> subject s = Some (false, scan_digits s 0%Z).
Proof.
  destruct s as [|c r]; [discriminate|]. intros H.
  destruct (isdigit_class c H) as (Hs & Hm & Hp & _).
  unfold subject. simpl skip_space. rewrite Hs, Hm, Hp.
  simpl starts_with_digit. simpl in H. rewrite H. reflexivity.
Qed.

Lemma subject_minus_digits s :
  starts_with_digit s = true ->
  subject (String "-" s) = Some (true, scan_digits s 0%Z).
Proof.
  intros H. unfold subject. simpl. rewrite H. reflexivity.
Qed.

Lemma stoull_to_string n :
  (0 <= n <= ULLONG_MAX)%Z -> stoull (to_string_ull n) = Ok n.
Proof.
  unfold ULLONG_MAX. intros Hn. unfold stoull, to_string_ull.
  rewrite subject_digits.
  2:{ apply all_digits_head; [apply to_chars_digits; reflexivity|].
      apply to_chars_nonempty. lia. }
  rewrite scan_to_chars_0; [|lia|].
  2:{ change (10 ^ Z.of_nat 20)%Z with 100000000000000000000%Z. lia. }
  destruct (n >? ULLONG_MAX)%Z eqn:E; [|reflexivity].
  unfold ULLONG_MAX in E. lia.
Qed.

Lemma stoi_to_string n :
  (INT_MIN <= n <= INT_MAX)%Z -> stoi (to_string_int n) = Ok n.
Proof.
  unfold INT_MIN, INT_MAX. intros Hn. unfold stoi, to_string_int.
  destruct (n <? 0)%Z eqn:Hneg.
  - apply Z.ltb_lt in Hneg.
    rewrite subject_minus_digits.
    2:{ apply all_digits_head; [apply to_chars_digits; reflexivity|].
        apply to_chars_nonempty. lia. }
    rewrite scan_to_chars_0; [|lia|].
    2:{ change (10 ^ Z.of_nat 10)%Z with 10000000000%Z. lia. }
    rewrite Z.opp_involutive.
    destruct ((n <? INT_MIN) || (n >? INT_MAX))%Z eqn:E; [|reflexivity].
    unfold INT_MIN, INT_MAX in E. lia.
  - apply Z.ltb_ge in Hneg.
    rewrite subject_digits.
    2:{ apply all_digits_head; [apply to_chars_digits; reflexivity|].
        apply to_chars_nonempty. lia. }
    rewrite scan_to_chars_0; [|lia|].
    2:{ change (10 ^ Z.of_nat 10)%Z with 10000000000%Z. lia. }
    destruct ((n <? INT_MIN) || (n >? INT_MAX))%Z eqn:E; [|reflexivity].
    unfold INT_MIN, INT_MAX in E. lia.
Qed.

(** Whatever [stoull] returns fits the unsigned 64-bit type. *)
Lemma scan_digits_nonneg s : forall a, (0 <= a)%Z -> (0 <= scan_digits s a)%Z.
Proof.
  induction s as [|c r IH]; intros a Ha; simpl; [exact Ha|].
  destruct (isdigit c) eqn:E; [|exact Ha].
  apply IH. unfold isdigit in E. apply andb_true_iff in E as [E1 E2].
  apply Nat.leb_le in E1. unfold digit_value. lia.
Qed.

Lemma stoull_range s n : stoull s = Ok n -> (0 <= n <= ULLONG_MAX)%Z.
Proof.
  unfold stoull. destruct (subject s) as [[neg m]|] eqn:E; [|discriminate].
  assert (Hm : (0 <= m)%Z).
  { unfold subject in E.
    destruct (match skip_space s with
              | EmptyString => (false, skip_space s)
              | String c r =>
                  if Ascii.eqb c "-" then (true, r)
                  else if Ascii.eqb c "+" then (false, r)
                  else (false, skip_space s)
              end) as [ng s2].
    destruct (starts_with_digit s2); [|discriminate].
    injection E as _ <-. apply scan_digits_nonneg. lia. }
  destruct (m >? ULLONG_MAX)%Z eqn:G; [discriminate|].
  intros H. injection H as <-. unfold ULLONG_MAX in *.
  destruct neg; [|lia].
  unfold wrap_ull. pose proof (Z.mod_pos_bound (- m) (2 ^ 64) ltac:(lia)). lia.
Qed.

Lemma content_put_same fs name data :
  content (put_file fs name data) name = Some data.
Proof. simpl. rewrite String.eqb_refl. reflexivity. Qed.

Lemma content_put_other fs name data p :
  p <> name -> content (put_file fs name data) p = content fs p.
Proof.
  intros H. simpl. apply String.eqb_neq in H. rewrite H. reflexivity.
Qed.

Lemma write_protected_put fs name data p :
  write_protected (put_file fs name data) p = write_protected fs p.
Proof. reflexivity. Qed.

(** ** [trim] *)

Lemma find_last_some s set a :
  find_first_not_of s set = Some a ->
  exists b, find_last_not_of s set = Some b /\ a <= b.
Proof.
  revert a. induction s as [|c s IH]; intros a; simpl; [discriminate|].
  destruct (mem_char c set) eqn:E.
  - destruct (find_first_not_of s set) as [a'|]; [|discriminate].
    intros H. injection H as <-.
    destruct (IH a' eq_refl) as [b [Hb Hle]]. rewrite Hb.
    exists (S b). split; [reflexivity|lia].
  - intros H. injection H as <-.
    destruct (find_last_not_of s set) as [b|]; eexists; split;
      try reflexivity; lia.
Qed.

Lemma find_last_app_end q d set :
  mem_char d set = false ->
  find_last_not_of (q ++ String d EmptyString) set = Some (String.length q).
Proof.
  intros H. induction q as [|c q IH]; simpl.
  - rewrite H. reflexivity.
  - rewrite IH. reflexivity.
Qed.

Lemma substring_all s : substring 0 (String.length s) s = s.
Proof. induction s as [|c s IH]; simpl; [reflexivity|]. rewrite IH. reflexivity. Qed.

(** A line that neither starts nor ends with a blank is left alone. *)
Lemma trim_unchanged c r q d :
  mem_char c trim_set = false -> mem_char d trim_set = false ->
  String c r = (q ++ String d EmptyString)%string ->
  trim (String c r) = String c r.
Proof.
  intros Hc Hd E. unfold trim.
  cbn [find_first_not_of]. rewrite Hc.
  rewrite E at 1. rewrite (find_last_app_end _ _ _ Hd).
  unfold substr. rewrite Nat.sub_0_r.
  assert (L : String.length q + 1 = String.length (String c r)).
  { rewrite E. rewrite append_length. reflexivity. }
  rewrite L. apply substring_all.
Qed.

(** ** Book: the text of a record and reading it back *)

Lemma all_chars_impl (p q : ascii -> bool) s :
  (forall c, p c = true -> q c = true) ->
  all_chars p s = true -> all_chars q s = true.
Proof.
  intros Hpq. induction s as [|c s IH]; simpl; [reflexivity|].
  intros H. apply andb_true_iff in H as [Hc Hs].
  rewrite (Hpq c Hc), (IH Hs). reflexivity.
Qed.

Lemma digits_lack_bar s : all_chars isdigit s = true -> lacks ch_bar s = true.
Proof.
  apply all_chars_impl. intros c Hc.
  destruct (isdigit_class c Hc) as (_ & _ & _ & Hb & _). rewrite Hb. reflexivity.
Qed.

Lemma digits_lack_nl s : all_chars isdigit s = true -> lacks ch_nl s = true.
Proof.
  apply all_chars_impl. intros c Hc.
  destruct (isdigit_class c Hc) as (_ & _ & _ & _ & Hn). rewrite Hn. reflexivity.
Qed.

Lemma to_string_ull_digits n : all_chars isdigit (to_string_ull n) = true.
Proof. apply to_chars_digits. reflexivity. Qed.

Lemma to_string_int_lacks c n :
  isdigit c = false -> Ascii.eqb "-" c = false ->
  lacks c (to_string_int n) = true.
Proof.
  intros Hc Hm.
  assert (D : forall s, all_chars isdigit s = true -> lacks c s = true).
  { intros s. apply all_chars_impl. intros d Hd.
    destruct (Ascii.eqb d c) eqn:E; [|reflexivity].
    apply Ascii.eqb_eq in E. subst d. congruence. }
  unfold to_string_int. destruct (n <? 0)%Z.
  - unfold lacks. cbn [all_chars]. rewrite Hm. simpl negb.
    apply D. apply to_chars_digits. reflexivity.
  - apply D. apply to_chars_digits. reflexivity.
Qed.

Lemma safe_lacks_bar s : lacks ch_bar (safe s) = true.
Proof.
  induction s as [|c s IH]; [reflexivity|].
  unfold safe, lacks in *. cbn [replace all_chars]. rewrite IH.
  destruct (Ascii.eqb c ch_bar) eqn:E; [reflexivity|]. rewrite E. reflexivity.
Qed.

Lemma safe_lacks_nl s : lacks ch_nl s = true -> lacks ch_nl (safe s) = true.
Proof.
  induction s as [|c s IH]; [reflexivity|].
  unfold safe, lacks in *. cbn [replace all_chars]. intros H.
  apply andb_true_iff in H as [Hc Hs]. rewrite (IH Hs).
  destruct (Ascii.eqb c ch_bar); [reflexivity|]. rewrite Hc. reflexivity.
Qed.

Definition flag_text (b : Book) : string :=
  if checked_out_ b then "1" else "0".

Lemma serialize_shape b :
  serialize b =
  (to_string_ull (id_ b) ++ String ch_bar
    (safe (title_ b) ++ String ch_bar
      (safe (author_ b) ++ String ch_bar
        (to_string_int (year_ b) ++ String ch_bar (flag_text b)))))%string.
Proof. reflexivity. Qed.

(** The five fields [split] finds in the text of a record. *)
Lemma split_serialize b :
  split (serialize b) ch_bar =
  [to_string_ull (id_ b); safe (title_ b); safe (author_ b);
   to_string_int (year_ b); flag_text b].
Proof.
  rewrite serialize_shape. unfold split.
  rewrite getlines_delim by (apply digits_lack_bar, to_string_ull_digits).
  rewrite getlines_delim by apply safe_lacks_bar.
  rewrite getlines_delim by apply safe_lacks_bar.
  rewrite getlines_delim by (apply to_string_int_lacks; reflexivity).
  rewrite getlines_end; [reflexivity| |];
    unfold flag_text; destruct (checked_out_ b); try reflexivity; discriminate.
Qed.

Lemma deserialize_serialize b :
  well_typed b -> deserialize (serialize b) = Ok (escaped b).
Proof.
  intros [Hid Hyear]. unfold deserialize.
  rewrite split_serialize. cbn [List.length Nat.ltb Nat.leb nth].
  rewrite (stoull_to_string _ Hid). cbn [bind].
  rewrite (stoi_to_string _ Hyear). cbn [bind].
  unfold flag_text, escaped, make_book, set_checked_out.
  destruct b as [i t a y []]; reflexivity.
Qed.

Lemma serialize_lacks_nl b :
  lacks ch_nl (title_ b) = true -> lacks ch_nl (author_ b) = true ->
  lacks ch_nl (serialize b) = true.
Proof.
  intros Ht Ha. rewrite serialize_shape. unfold lacks.
  repeat (rewrite all_chars_append; cbn [all_chars]).
  fold (lacks ch_nl (to_string_ull (id_ b))).
  fold (lacks ch_nl (safe (title_ b))).
  fold (lacks ch_nl (safe (author_ b))).
  fold (lacks ch_nl (to_string_int (year_ b))).
  rewrite (digits_lack_nl _ (to_string_ull_digits _)).
  rewrite (safe_lacks_nl _ Ht), (safe_lacks_nl _ Ha).
  rewrite to_string_int_lacks by reflexivity.
  unfold flag_text. destruct (checked_out_ b); reflexivity.
Qed.

Lemma digit_not_trimmed c : isdigit c = true -> mem_char c trim_set = false.
Proof.
  destruct c as [[] [] [] [] [] [] [] []]; vm_compute; intros H;
    try discriminate H; reflexivity.
Qed.

(** [trim] leaves the text of a record as it is: it starts with a digit
    and ends with the flag. *)
Lemma trim_serialize b : trim (serialize b) = serialize b.
Proof.
  assert (Hne : to_string_ull (id_ b) <> EmptyString).
  { apply to_chars_nonempty. lia. }
  pose proof (to_string_ull_digits (id_ b)) as Hd.
  assert (E : exists q d, serialize b = (q ++ String d EmptyString)%string /\
                          mem_char d trim_set = false).
  { exists (to_string_ull (id_ b) ++ "|" ++ safe (title_ b) ++ "|" ++
            safe (author_ b) ++ "|" ++ to_string_int (year_ b) ++ "|")%string.
    exists (if checked_out_ b then "1"%char else "0"%char). split.
    - unfold serialize. repeat rewrite append_assoc.
      destruct (checked_out_ b); reflexivity.
    - destruct (checked_out_ b); reflexivity. }
  destruct E as (q & d & Eq & Hdm).
  rewrite serialize_shape in *.
  destruct (to_string_ull (id_ b)) as [|c r]; [contradiction|].
  cbn [all_chars] in Hd. apply andb_true_iff in Hd as [Hc _].
  cbn [append] in *.
  eapply trim_unchanged; eauto using digit_not_trimmed.
Qed.

Lemma serialize_nonempty b : empty (serialize b) = false.
Proof.
  assert (Hne : to_string_ull (id_ b) <> EmptyString).
  { apply to_chars_nonempty. lia. }
  rewrite serialize_shape.
  destruct (to_string_ull (id_ b)); [contradiction|reflexivity].
Qed.

(** ** The repository: saving *)

Import Notions.

Section RepositoryFacts.
Context {T : Type} `{Repository.Item T}.

Lemma write_items_content filename (items_ : list T) : forall fs old,
  content fs filename = Some old ->
  content (Repository.write_items filename items_ fs) filename =
  Some (old ++ file_text items_)%string.
Proof.
  induction items_ as [|u more IH]; intros fs old Hold; simpl.
  - rewrite append_empty_r. exact Hold.
  - rewrite (IH _ ((old ++ Repository.serialize u) ++ endl)%string).
    + rewrite !append_assoc. reflexivity.
    + unfold ofstream_write at 1. rewrite content_put_same.
      unfold ofstream_write. rewrite content_put_same, Hold. reflexivity.
Qed.

Lemma write_items_other filename (items_ : list T) p : forall fs,
  p <> filename ->
  content (Repository.write_items filename items_ fs) p = content fs p.
Proof.
  induction items_ as [|u more IH]; intros fs Hp; simpl; [reflexivity|].
  rewrite IH by exact Hp. unfold ofstream_write.
  rewrite !content_put_other by exact Hp. reflexivity.
Qed.

Lemma write_items_protected filename (items_ : list T) p : forall fs,
  write_protected (Repository.write_items filename items_ fs) p =
  write_protected fs p.
Proof.
  induction items_ as [|u more IH]; intros fs; simpl; [reflexivity|].
  rewrite IH. reflexivity.
Qed.

(** The outcome of [save_to_file], in both cases. *)
Lemma save_to_file_ok fs filename (items_ : list T) :
  write_protected fs filename = false ->
  exists fs',
    Repository.save_to_file fs filename items_ = Ok fs' /\
    content fs' filename = Some (file_text items_) /\
    (forall p, p <> filename -> content fs' p = content fs p) /\
    (forall p, write_protected fs' p = write_protected fs p).
Proof.
  intros Hw. unfold Repository.save_to_file, ofstream_open. rewrite Hw.
  eexists. split; [reflexivity|]. split; [|split].
  - erewrite write_items_content by apply content_put_same. reflexivity.
  - intros p Hp. rewrite write_items_other by exact Hp.
    apply content_put_other. exact Hp.
  - intros p. rewrite write_items_protected. reflexivity.
Qed.


(** The lines [getline] finds in the text of a repository are the texts
    of the records, when none of them holds a line feed. *)
Lemma getlines_file_text (items_ : list T) :
  Forall (fun u => lacks ch_nl (Repository.serialize u) = true) items_ ->
  getlines (file_text items_) ch_nl = map Repository.serialize items_.
Proof.
  induction 1 as [|u more Hu _ IH]; simpl.
  - apply getlines_nil.
  - change (endl ++ file_text more)%string with (String ch_nl (file_text more)).
    rewrite (getlines_delim _ _ _ Hu), IH. reflexivity.
Qed.

(** C8: two saves in a row to a file that can be written, with the same
    [items_], both succeed and leave the same bytes in the file. *)
Theorem save_twice_same_bytes fs filename (items_ : list T) :
  write_protected fs filename = false ->
  exists fs1 fs2,
    Repository.save_to_file fs filename items_ = Ok fs1 /\
    Repository.save_to_file fs1 filename items_ = Ok fs2 /\
    content fs1 filename = content fs2 filename /\
    content fs1 filename = Some (file_text items_).
Proof.
  intros Hw.
  destruct (save_to_file_ok _ _ items_ Hw) as (fs1 & E1 & C1 & _ & P1).
  assert (Hw1 : write_protected fs1 filename = false) by (rewrite P1; exact Hw).
  destruct (save_to_file_ok _ _ items_ Hw1) as (fs2 & E2 & C2 & _).
  exists fs1, fs2. repeat split; congruence.
Qed.


End RepositoryFacts.

(** ** The repository: loading *)

Section LoadFacts.
Context {T : Type} `{Repository.Item T}.

Lemma load_line_blank line (st : list T * list string) :
  empty (trim line) = true -> Repository.load_line line st = Ok st.
Proof.
  intros E. destruct st as [items_ cerr]. unfold Repository.load_line.
  rewrite E. reflexivity.
Qed.

Lemma load_line_good line (u : T) items_ cerr :
  well_formed_line line u ->
  Repository.load_line line (items_, cerr) = Ok (items_ ++ [u], cerr).
Proof.
  intros [E D]. unfold Repository.load_line. rewrite E, D. reflexivity.
Qed.

Lemma load_line_bad line e (items_ : list T) cerr :
  malformed_line line e ->
  Repository.load_line line (items_, cerr) = Ok (items_, cerr ++ [warning e]).
Proof.
  intros [E D]. unfold Repository.load_line. rewrite E, D. reflexivity.
Qed.

(** One line adds at most one record or one warning, and never throws. *)
Lemma load_line_shape line :
  exists (I : list T) (W : list string),
    forall items_ cerr,
      Repository.load_line line (items_, cerr) = Ok (items_ ++ I, cerr ++ W).
Proof.
  destruct (empty (trim line)) eqn:E.
  - exists [], []. intros. rewrite load_line_blank by exact E.
    rewrite !app_nil_r. reflexivity.
  - destruct (Repository.deserialize (trim line)) as [u|e] eqn:D.
    + exists [u], []. intros. rewrite (load_line_good line u) by (split; assumption).
      rewrite app_nil_r. reflexivity.
    + exists [], [warning e]. intros.
      rewrite (load_line_bad line e) by (split; assumption).
      rewrite app_nil_r. reflexivity.
Qed.

Lemma load_lines_shape lines :
  exists (I : list T) (W : list string),
    forall items_ cerr,
      Repository.load_lines lines (items_, cerr) = Ok (items_ ++ I, cerr ++ W).
Proof.
  induction lines as [|line more IH].
  - exists [], []. intros. simpl. rewrite !app_nil_r. reflexivity.
  - destruct (load_line_shape line) as (I1 & W1 & H1).
    destruct IH as (I2 & W2 & H2).
    exists (I1 ++ I2), (W1 ++ W2). intros. cbn [Repository.load_lines].
    rewrite H1. cbn [bind]. rewrite H2, !app_assoc. reflexivity.
Qed.

Lemma load_lines_app l1 l2 (st : list T * list string) :
  Repository.load_lines (l1 ++ l2) st =
  (st' <- Repository.load_lines l1 st ;; Repository.load_lines l2 st').
Proof.
  revert st. induction l1 as [|line more IH]; intros st;
    cbn [app Repository.load_lines].
  - reflexivity.
  - destruct (Repository.load_line line st) as [st'|e]; cbn [bind];
      [apply IH|reflexivity].
Qed.

Lemma load_lines_skip_blank lines : forall st : list T * list string,
  Repository.load_lines lines st =
  Repository.load_lines
    (filter (fun line => negb (empty (trim line))) lines) st.
Proof.
  induction lines as [|line more IH]; intros st; [reflexivity|].
  cbn [filter Repository.load_lines].
  destruct (empty (trim line)) eqn:E; cbn [negb Repository.load_lines].
  - rewrite load_line_blank by exact E. cbn [bind]. apply IH.
  - destruct (Repository.load_line line st); cbn [bind];
      [apply IH|reflexivity].
Qed.

Lemma load_from_file_never_throws fs filename (prior : list T) :
  throws (Repository.load_from_file fs filename prior) = false.
Proof.
  unfold Repository.load_from_file, ifstream_open.
  destruct (content fs filename) as [fin|]; [|reflexivity].
  destruct (load_lines_shape (getlines fin ch_nl)) as (I & W & E).
  rewrite E. reflexivity.
Qed.

(** C3: [load_from_file] never throws.  A source whose lines, blank
    ones apart, are one well-formed line and one malformed line, in
    either order, loads exactly the one record and writes exactly one
    warning.  A malformed line anywhere in a source costs one warning
    and nothing else: the records and the other warnings are those of
    the source without it. *)
Theorem tolerant_load fs filename (prior : list T) :
  throws (Repository.load_from_file fs filename prior) = false /\
  (forall text good bad u e,
     content fs filename = Some text ->
     well_formed_line good u -> malformed_line bad e ->
     record_lines text = [good; bad] \/ record_lines text = [bad; good] ->
     Repository.load_from_file fs filename prior = Ok ([u], [warning e])) /\
  (forall text before bad after e,
     content fs filename = Some text ->
     malformed_line bad e ->
     getlines text ch_nl = before ++ bad :: after ->
     exists items_ cerr1 cerr2,
       Repository.load_from_file fs filename prior =
         Ok (items_, cerr1 ++ warning e :: cerr2) /\
       Repository.load_lines (before ++ after) ([], []) =
         Ok (items_, cerr1 ++ cerr2)).
Proof.
  split; [apply load_from_file_never_throws|]. split.
  - intros text good bad u e Hc Hg Hb [L|L];
      unfold Repository.load_from_file, ifstream_open; rewrite Hc;
      rewrite load_lines_skip_blank; fold (record_lines text); rewrite L;
      cbn [Repository.load_lines].
    + rewrite (load_line_good good u) by exact Hg. cbn [bind app].
      rewrite (load_line_bad bad e) by exact Hb. reflexivity.
    + rewrite (load_line_bad bad e) by exact Hb. cbn [bind app].
      rewrite (load_line_good good u) by exact Hg. reflexivity.
  - intros text before bad after e Hc Hb L.
    unfold Repository.load_from_file, ifstream_open. rewrite Hc, L.
    destruct (load_lines_shape before) as (I1 & W1 & H1).
    destruct (load_lines_shape after) as (I2 & W2 & H2).
    exists (I1 ++ I2), W1, W2.
    rewrite !load_lines_app, H1. cbn [bind app Repository.load_lines].
    rewrite (load_line_bad bad e) by exact Hb. cbn [bind].
    rewrite !H2. rewrite <- app_assoc. split; reflexivity.
Qed.

(** C7, as the code has it: when the source can be opened, the prior
    contents are dropped and the result is what the loop makes of the
    lines of the source, starting from an empty repository; when the
    source is missing, the call returns normally and leaves the
    repository as it was, hence empty if it was empty. *)
Theorem load_from_file_clears fs filename (prior : list T) :
  (forall fin,
     content fs filename = Some fin ->
     Repository.load_from_file fs filename prior =
       Repository.load_lines (getlines fin ch_nl) ([], []) /\
     Repository.load_from_file fs filename prior =
       Repository.load_from_file fs filename []) /\
  (content fs filename = None ->
   Repository.load_from_file fs filename prior = Ok (prior, []) /\
   Repository.load_from_file fs filename [] = Ok (@nil T, [])).
Proof.
  unfold Repository.load_from_file, ifstream_open. split.
  - intros fin ->. split; reflexivity.
  - intros ->. split; reflexivity.
Qed.

End LoadFacts.

(** ** Books in the repository *)

Lemma serialize_well_formed b :
  well_typed b -> well_formed_line (BookModel.serialize b) (escaped b).
Proof.
  intros Hb. split; cbn [Repository.deserialize Book_Item];
    rewrite trim_serialize.
  - apply serialize_nonempty.
  - apply deserialize_serialize. exact Hb.
Qed.

Lemma load_lines_serialize (items_ : list Book) : forall acc cerr,
  Forall well_typed items_ ->
  Repository.load_lines (map BookModel.serialize items_) (acc, cerr) =
  Ok (acc ++ map escaped items_, cerr).
Proof.
  induction items_ as [|b more IH]; intros acc cerr Hwt;
    cbn [map Repository.load_lines].
  - rewrite app_nil_r. reflexivity.
  - inversion Hwt as [|b' more' Hb Hmore]; subst.
    rewrite (load_line_good _ (escaped b)) by (apply serialize_well_formed, Hb).
    cbn [bind]. rewrite IH by exact Hmore.
    rewrite <- app_assoc. reflexivity.
Qed.

(** C1, as the code has it: for books whose title and author hold no
    line feed, saving the repository and loading the file again gives
    the same books in the same order, each with its identity, year and
    checked-out flag, and with title and author as they were except that
    every vertical bar has become a slash; the load writes no warning. *)
Theorem save_load_round_trip fs filename (items_ : list Book) :
  Forall well_typed items_ ->
  Forall no_line_feed items_ ->
  write_protected fs filename = false ->
  save_then_load fs filename items_ (map escaped items_) /\
  exists fs',
    Repository.save_to_file fs filename items_ = Ok fs' /\
    Repository.load_from_file fs' filename [] = Ok (map escaped items_, []).
Proof.
  intros Hwt Hnl Hw.
  destruct (save_to_file_ok fs filename items_ Hw) as (fs' & E & C & _).
  assert (L : Repository.load_from_file fs' filename [] =
              Ok (map escaped items_, [])).
  { unfold Repository.load_from_file, ifstream_open. rewrite C.
    rewrite getlines_file_text.
    - apply (load_lines_serialize items_ [] [] Hwt).
    - clear -Hnl. induction Hnl as [|b more [Ht Ha] _ IH]; constructor.
      + apply serialize_lacks_nl; assumption.
      + exact IH. }
  split; [exists fs', []; split; assumption|].
  exists fs'. split; assumption.
Qed.

Lemma stoull_throws_iff s :
  throws (stoull s) = true <->
  match subject s with
  | None => True
  | Some (_, m) => (ULLONG_MAX < m)%Z
  end.
Proof.
  unfold stoull. destruct (subject s) as [[neg m]|]; [|split; auto].
  destruct (m >? ULLONG_MAX)%Z eqn:E; cbn [throws].
  - split; [lia|reflexivity].
  - split; [discriminate|lia].
Qed.

Lemma stoi_throws_iff s :
  throws (stoi s) = true <->
  match subject s with
  | None => True
  | Some (neg, m) =>
      let v := if neg then (- m)%Z else m in (v < INT_MIN \/ INT_MAX < v)%Z
  end.
Proof.
  unfold stoi. destruct (subject s) as [[neg m]|]; [|split; auto].
  cbv zeta.
  destruct (((if neg then - m else m) <? INT_MIN) ||
            ((if neg then - m else m) >? INT_MAX))%Z eqn:E; cbn [throws].
  - split; [lia|reflexivity].
  - split; [discriminate|lia].
Qed.

(** The three ways [deserialize] has of throwing, and what it returns
    otherwise, in terms of the calls it makes. *)
Lemma deserialize_cases line :
  (throws (BookModel.deserialize line) = true <->
   (List.length (split line ch_bar) < 5)%nat \/
   throws (stoull (nth 0 (split line ch_bar) EmptyString)) = true \/
   throws (stoi (nth 3 (split line ch_bar) EmptyString)) = true) /\
  (forall id year,
     (5 <= List.length (split line ch_bar))%nat ->
     stoull (nth 0 (split line ch_bar) EmptyString) = Ok id ->
     stoi (nth 3 (split line ch_bar) EmptyString) = Ok year ->
     BookModel.deserialize line =
     Ok {| id_ := id; title_ := nth 1 (split line ch_bar) EmptyString;
           author_ := nth 2 (split line ch_bar) EmptyString; year_ := year;
           checked_out_ :=
             String.eqb (nth 4 (split line ch_bar) EmptyString) "1" |}).
Proof.
  unfold BookModel.deserialize. set (parts := split line ch_bar). split.
  - destruct (List.length parts <? 5)%nat eqn:L.
    + apply Nat.ltb_lt in L. split; [intros _; left; exact L|reflexivity].
    + apply Nat.ltb_ge in L.
      destruct (stoull (nth 0 parts EmptyString)) as [i|e1]; cbn [bind throws].
      * destruct (stoi (nth 3 parts EmptyString)) as [y|e2]; cbn [bind throws].
        -- split; [discriminate|]. intros [G|[G|G]]; [lia|discriminate..].
        -- split; [intros _; right; right; reflexivity|reflexivity].
      * split; [intros _; right; left; reflexivity|reflexivity].
  - intros i y L Hi Hy. apply Nat.ltb_ge in L. rewrite L, Hi. cbn [bind].
    rewrite Hy. cbn [bind]. unfold make_book, set_checked_out.
    destruct (String.eqb (nth 4 parts EmptyString) "1"); reflexivity.
Qed.


(** ** The controller: identity seeding *)

Lemma deserialize_id_range line b :
  BookModel.deserialize line = Ok b -> (0 <= id_ b <= ULLONG_MAX)%Z.
Proof.
  unfold BookModel.deserialize.
  destruct (List.length (split line ch_bar) <? 5)%nat; [discriminate|].
  destruct (stoull (nth 0 (split line ch_bar) EmptyString)) as [i|e] eqn:Hi;
    [|discriminate].
  apply stoull_range in Hi. cbn [bind].
  destruct (stoi (nth 3 (split line ch_bar) EmptyString)) as [y|e];
    [|discriminate].
  cbn [bind]. intros E. injection E as <-.
  destruct (String.eqb _ _); exact Hi.
Qed.

Lemma load_lines_id_range lines : forall (items_ items' : list Book) cerr cerr',
  Repository.load_lines lines (items_, cerr) = Ok (items', cerr') ->
  Forall (fun b => (0 <= id_ b <= ULLONG_MAX)%Z) items_ ->
  Forall (fun b => (0 <= id_ b <= ULLONG_MAX)%Z) items'.
Proof.
  induction lines as [|line more IH]; intros items_ items' cerr cerr' E F.
  - cbn [Repository.load_lines] in E. injection E as <- _. exact F.
  - cbn [Repository.load_lines] in E. unfold Repository.load_line in E.
    destruct (empty (trim line)).
    + cbn [bind] in E. eapply IH; eauto.
    + cbn [Repository.deserialize Book_Item] in E.
      destruct (BookModel.deserialize (trim line)) as [b|e] eqn:D;
        cbn [bind try_catch] in E.
      * eapply IH; [exact E|]. apply Forall_app. split; [exact F|].
        constructor; [|constructor]. eapply deserialize_id_range; eauto.
      * eapply IH; eauto.
Qed.

Lemma seed_next_id_max all : forall next,
  (1 <= next)%Z ->
  Forall (fun b => (0 <= id_ b < ULLONG_MAX)%Z) all ->
  Library.seed_next_id all next = Z.max next (1 + max_id all).
Proof.
  unfold Library.seed_next_id, max_id, ULLONG_MAX.
  induction all as [|b more IH]; intros next Hn F;
    cbn [fold_left fold_right map].
  - lia.
  - inversion F as [|b' more' Hb Hmore]; subst.
    assert (W : wrap_ull (id_ b + 1) = (id_ b + 1)%Z).
    { unfold wrap_ull. apply Z.mod_small. lia. }
    rewrite W.
    destruct (id_ b >=? next)%Z eqn:C.
    + rewrite IH by (try assumption; lia). lia.
    + rewrite IH by (try assumption; lia). lia.
Qed.

Lemma max_id_nonneg books : (0 <= max_id books)%Z.
Proof.
  unfold max_id. induction books as [|b more IH]; cbn [map fold_right]; lia.
Qed.

Lemma construct_repo fs dbfile lib cerr :
  Library.construct fs dbfile = Ok (lib, cerr) ->
  Library.next_id_ lib = Library.seed_next_id (Library.repo_ lib) 1 /\
  Forall (fun b => (0 <= id_ b <= ULLONG_MAX)%Z) (Library.repo_ lib).
Proof.
  unfold Library.construct.
  destruct (Repository.load_from_file fs dbfile []) as [[items_ ce]|e] eqn:L;
    [|discriminate].
  cbn [bind fst snd]. intros E. injection E as <- _. cbn. split; [reflexivity|].
  unfold Repository.load_from_file, ifstream_open in L.
  destruct (content fs dbfile) as [fin|].
  - eapply load_lines_id_range; [exact L|constructor].
  - injection L as <- _. constructor.
Qed.

(** C4, as the code has it: when every loaded identity is below the
    largest 64-bit value, the counter after construction is one more
    than the largest loaded identity; it is 1 when nothing was loaded,
    and 8 when the loaded identities are 3, 7 and 2. *)
Theorem seed_next_identity fs dbfile lib cerr :
  Library.construct fs dbfile = Ok (lib, cerr) ->
  (Forall (fun b => (id_ b < ULLONG_MAX)%Z) (Library.repo_ lib) ->
   Library.next_id_ lib = (1 + max_id (Library.repo_ lib))%Z) /\
  (Library.repo_ lib = [] -> Library.next_id_ lib = 1%Z) /\
  (map id_ (Library.repo_ lib) = [3; 7; 2]%Z -> Library.next_id_ lib = 8%Z).
Proof.
  intros E. destruct (construct_repo _ _ _ _ E) as [N R].
  assert (G : Forall (fun b => (id_ b < ULLONG_MAX)%Z) (Library.repo_ lib) ->
              Library.next_id_ lib = (1 + max_id (Library.repo_ lib))%Z).
  { intros F. rewrite N, seed_next_id_max; [| lia |].
    - pose proof (max_id_nonneg (Library.repo_ lib)). lia.
    - clear -F R. induction R as [|b more Hb _ IH]; [constructor|].
      inversion F; subst. constructor; [lia|auto]. }
  split; [exact G|]. split.
  - intros Hnil. rewrite N, Hnil. reflexivity.
  - intros Hids. rewrite G.
    + unfold max_id. rewrite Hids. reflexivity.
    + clear -Hids. unfold ULLONG_MAX.
      destruct (Library.repo_ lib) as [|a [|b [|c [|d l]]]]; try discriminate.
      injection Hids as Ha Hb Hc. repeat constructor; lia.
Qed.

(** ** The autosave thread and the destructor *)

Section AutosaveFacts.
Import Autosave.
Variable World : Type.
Variable save : World -> Result World.

Lemma count_after_none mark counted tr :
  existsb mark tr = false -> count_after mark counted tr = 0.
Proof.
  destruct tr as [|e older]; [reflexivity|]. cbn [existsb count_after].
  intros E. apply orb_false_iff in E as [E1 E2]. rewrite E1, E2. reflexivity.
Qed.

Lemma invariant_init (w : World) : invariant (init w).
Proof. repeat split. Qed.

Lemma invariant_step m (st st' : state World) :
  invariant st -> step save m st = Some st' -> invariant st'.
Proof.
  unfold invariant, saves_after_stop, saves_after_join.
  destruct st as [tp op stop w ce tr]. destruct m as [| |f]; cbn.
  - (* the thread *)
    destruct tp; cbn; try discriminate.
    + intros I E. injection E as <-. cbn.
      destruct op; cbn in *.
      * exact I.
      * destruct I as (-> & Hs & Hj & Hle). cbn. repeat split; auto.
      * destruct I as (_ & Hx & _). discriminate.
    + intros I E. injection E as <-. cbn.
      destruct op; cbn in *.
      * exact I.
      * destruct I as (Hst & Hs & Hj & Hle). rewrite Hs, Hj. repeat split; auto.
      * destruct I as (_ & Hx & _). discriminate.
    + intros I E.
      destruct (save w) as [w'|e]; injection E as <-; cbn;
        destruct op; cbn in *;
        try exact I;
        try (destruct I as (Hst & Hs & Hj & Hle); rewrite Hs, Hj;
             repeat split; auto; lia);
        try (destruct I as (_ & Hx & _); discriminate).
  - (* the destructor *)
    destruct op; cbn; try discriminate.
    + intros (Hst & Hs & Hj) E. injection E as <-. cbn.
      rewrite Hj. repeat split; auto. destruct tp; cbn; lia.
    + destruct tp; try discriminate.
      intros (Hst & Hs & Hj & Hle) E. injection E as <-. cbn.
      rewrite Hs. repeat split; auto. cbn in Hle. lia.
  - (* the owner, elsewhere *)
    destruct op; cbn; try discriminate.
    intros I E. injection E as <-. cbn. exact I.
Qed.

Lemma invariant_run sched : forall st : state World,
  invariant st -> invariant (run save sched st).
Proof.
  induction sched as [|m more IH]; intros st I; cbn [run]; [exact I|].
  destruct (step save m st) as [st'|] eqn:E.
  - apply IH. eapply invariant_step; eauto.
  - apply IH. exact I.
Qed.

Lemma destroyed_is_final more : forall st : state World,
  opc st = Destroyed -> tpc st = Exited -> run save more st = st.
Proof.
  induction more as [|m more IH]; intros st Ho Ht; cbn [run]; [reflexivity|].
  assert (E : step save m st = None).
  { destruct m; cbn; unfold thread_step, destructor_step, foreground_step;
      rewrite ?Ho, ?Ht; reflexivity. }
  rewrite E. apply IH; assumption.
Qed.

Lemma thread_leaves_within_three (st : state World) :
  stop_autosave_ st = true ->
  tpc (run save [Thread; Thread; Thread] st) = Exited.
Proof.
  destruct st as [tp op stop w ce tr]. cbn [stop_autosave_]. intros ->.
  destruct tp; cbn; try reflexivity;
    destruct (save w); cbn; reflexivity.
Qed.

(** C2, as the code has it: the thread tests the stop flag only at the
    head of its loop, before it sleeps.  In every interleaving it calls
    [save()] at most once after the flag is set (the call that follows
    the sleep or the save under way), and it has left the loop after at
    most three more of its steps: wake, save, test.  Once the join has
    returned the thread has exited, no call of [save()] follows, and
    neither the shared data nor the trace changes any more. *)
Theorem autosave_shutdown (w : World) (sched : list (move World)) :
  saves_after_stop (trace (run save sched (init w))) <= 1 /\
  (stop_autosave_ (run save sched (init w)) = true ->
   tpc (run save [Thread; Thread; Thread] (run save sched (init w))) = Exited) /\
  (opc (run save sched (init w)) = Destroyed ->
   tpc (run save sched (init w)) = Exited /\
   saves_after_join (trace (run save sched (init w))) = 0 /\
   forall more,
     run save more (run save sched (init w)) = run save sched (init w)).
Proof.
  pose proof (invariant_run sched _ (invariant_init w)) as I.
  set (st := run save sched (init w)) in *.
  split; [|split].
  - unfold invariant in I. destruct (opc st).
    + destruct I as (_ & Hs & _). unfold saves_after_stop.
      rewrite count_after_none by exact Hs. lia.
    + destruct I as (_ & _ & _ & Hle). lia.
    + destruct I as (_ & _ & Hle & _). exact Hle.
  - apply thread_leaves_within_three.
  - intros Ho. unfold invariant in I. rewrite Ho in I.
    destruct I as (_ & Ht & _ & Hj). repeat split; try assumption.
    intros more. apply destroyed_is_final; assumption.
Qed.

End AutosaveFacts.

(** ** The theorems at concrete inputs *)

Import Autosave.

Lemma save_load_round_trip_witness :
  Forall well_typed [dune; barred] /\
  Forall no_line_feed [dune; barred] /\
  write_protected (no_files false) db = false /\
  save_then_load (no_files false) db [dune; barred] [dune; escaped barred].
Proof.
  assert (W : Forall well_typed [dune; barred]).
  { repeat constructor; vm_compute; discriminate. }
  assert (N : Forall no_line_feed [dune; barred]).
  { repeat constructor. }
  repeat split; try assumption.
  exact (proj1 (save_load_round_trip (no_files false) db [dune; barred]
                  W N eq_refl)).
Defined.

(** A book whose title holds a line feed is well typed, yet saving it and
    loading the file again does not give it back: its text takes two
    lines, and neither parses. *)
Lemma round_trip_counterexample :
  well_typed two_line_book /\
  ~ save_then_load (no_files false) db [two_line_book]
      (map escaped [two_line_book]).
Proof.
  split; [split; vm_compute; split; discriminate|].
  intros (fs' & cerr & Hs & Hl).
  vm_compute in Hs. injection Hs as <-.
  vm_compute in Hl. discriminate Hl.
Qed.

Lemma autosave_shutdown_witness :
  stop_autosave_
    (run (Library.save empty_library)
       [Thread; Thread; Destructor; Thread; Thread; Thread; Destructor]
       (init (no_files false))) = true /\
  opc
    (run (Library.save empty_library)
       [Thread; Thread; Destructor; Thread; Thread; Thread; Destructor]
       (init (no_files false))) = Destroyed /\
  tpc
    (run (Library.save empty_library)
       [Thread; Thread; Destructor; Thread; Thread; Thread; Destructor]
       (init (no_files false))) = Exited /\
  saves_after_stop
    (trace
       (run (Library.save empty_library)
          [Thread; Thread; Destructor; Thread; Thread; Thread; Destructor]
          (init (no_files false)))) <= 1.
Proof.
  destruct (autosave_shutdown filesystem (Library.save empty_library)
              (no_files false)
              [Thread; Thread; Destructor; Thread; Thread; Thread; Destructor])
    as (Hle & _ & Hd).
  split; [reflexivity|]. split; [reflexivity|].
  split; [exact (proj1 (Hd eq_refl))|exact Hle].
Defined.

(** The flag is set while the thread sleeps; the thread wakes, saves, and
    only then tests the flag. *)
Lemma autosave_counterexample :
  ~ exits_without_save (Library.save empty_library) (no_files false)
      [Thread; Destructor; Thread; Thread].
Proof. unfold exits_without_save. vm_compute. discriminate. Qed.

Lemma tolerant_load_witness :
  Repository.load_from_file
    (single_file db
       ("1|Dune|Herbert|1965|0" ++ endl ++ endl ++ " 7|A|B " ++ endl)) db
    [barred] =
  Ok ([dune], [warning (runtime_error "Bad record: 7|A|B")]).
Proof.
  destruct (tolerant_load
              (single_file db
                 ("1|Dune|Herbert|1965|0" ++ endl ++ endl ++ " 7|A|B " ++ endl))
              db [barred]) as (_ & H & _).
  apply (H ("1|Dune|Herbert|1965|0" ++ endl ++ endl ++ " 7|A|B " ++ endl)%string
           "1|Dune|Herbert|1965|0"%string " 7|A|B "%string dune
           (runtime_error "Bad record: 7|A|B")).
  - reflexivity.
  - split; reflexivity.
  - split; reflexivity.
  - left. reflexivity.
Defined.

Lemma seed_next_identity_witness :
  exists lib cerr,
    Library.construct
      (single_file db ("3|a|b|2000|0" ++ endl ++ "7|c|d|2001|1" ++ endl ++
                       "2|e|f|1999|0" ++ endl)) db = Ok (lib, cerr) /\
    map id_ (Library.repo_ lib) = [3; 7; 2]%Z /\
    Library.next_id_ lib = 8%Z.
Proof.
  destruct (Library.construct
              (single_file db ("3|a|b|2000|0" ++ endl ++ "7|c|d|2001|1" ++ endl ++
                               "2|e|f|1999|0" ++ endl)) db)
    as [[lib ce]|e] eqn:E.
  2:{ vm_compute in E. discriminate E. }
  assert (R : map id_ (Library.repo_ lib) = [3; 7; 2]%Z).
  { pose proof E as E'. vm_compute in E'. injection E' as <- _. reflexivity. }
  exists lib, ce. split; [reflexivity|]. split; [exact R|].
  exact (proj2 (proj2 (seed_next_identity _ _ _ _ E)) R).
Defined.

(** A record with the largest 64-bit identity: the addition wraps and the
    counter restarts at 0. *)
Lemma seed_next_identity_counterexample :
  ~ seeded_past_max
      (single_file db ("18446744073709551615|T|A|2000|0" ++ endl)) db.
Proof.
  intros H.
  destruct (Library.construct
              (single_file db ("18446744073709551615|T|A|2000|0" ++ endl)) db)
    as [[lib ce]|e] eqn:E; vm_compute in E; [|discriminate E].
  injection E as <- <-.
  specialize (H _ _ eq_refl). vm_compute in H. discriminate H.
Qed.

Lemma load_from_file_clears_witness :
  Repository.load_from_file (single_file db "1|Dune|Herbert|1965|0") db [barred] =
  Repository.load_from_file (single_file db "1|Dune|Herbert|1965|0") db [] /\
  Repository.load_from_file (no_files false) db [barred] = Ok ([barred], []).
Proof.
  split.
  - exact (proj2 (proj1 (load_from_file_clears
                           (single_file db "1|Dune|Herbert|1965|0") db [barred])
                    "1|Dune|Herbert|1965|0"%string eq_refl)).
  - exact (proj1 (proj2 (load_from_file_clears (no_files false) db [barred])
                    eq_refl)).
Defined.

(** No file, a repository that holds a book: after the load the book is
    still there. *)
Lemma load_from_file_counterexample :
  ~ missing_source_leaves_empty (no_files false) db [barred].
Proof.
  intros H. destruct (H eq_refl) as [cerr E].
  vm_compute in E. discriminate E.
Qed.

Lemma save_twice_same_bytes_witness :
  write_protected (single_file db "old") db = false /\
  exists fs1 fs2,
    Repository.save_to_file (single_file db "old") db [dune; barred] = Ok fs1 /\
    Repository.save_to_file fs1 db [dune; barred] = Ok fs2 /\
    content fs1 db = content fs2 db.
Proof.
  split; [reflexivity|].
  destruct (save_twice_same_bytes (single_file db "old") db [dune; barred] eq_refl)
    as (fs1 & fs2 & E1 & E2 & C & _).
  exists fs1, fs2. repeat split; assumption.
Defined.



(* ===================================================================== *)
(** * Further properties of the code *)
(* ===================================================================== *)

Import TextNotions.

(** ** [trim] *)

Lemma substring_0_0 s : substring 0 0 s = EmptyString.
Proof. destruct s; reflexivity. Qed.

(** [find_last_not_of] against the structural [rtrim]. *)
Lemma find_last_rtrim s :
  (find_last_not_of s trim_set = None -> rtrim s = EmptyString) /\
  (forall b, find_last_not_of s trim_set = Some b ->
             substring 0 (S b) s = rtrim s /\ rtrim s <> EmptyString).
Proof.
  induction s as [|c r [IHn IHs]]; cbn [find_last_not_of rtrim].
  - split; [reflexivity|discriminate].
  - destruct (find_last_not_of r trim_set) as [i|] eqn:E.
    + split; [discriminate|]. intros b Hb. injection Hb as <-.
      destruct (IHs i eq_refl) as [Hsub Hne].
      cbn [substring]. cbn [substring] in Hsub. rewrite Hsub.
      destruct (rtrim r); [contradiction|]. split; [reflexivity|discriminate].
    + rewrite (IHn eq_refl). unfold blank.
      destruct (mem_char c trim_set).
      * split; [reflexivity|discriminate].
      * split; [discriminate|]. intros b Hb. injection Hb as <-.
        cbn [substring]. rewrite substring_0_0. split; [reflexivity|discriminate].
Qed.

(** [trim] drops the leading blanks, then the trailing ones. *)
Lemma trim_structural s : trim s = rtrim (ltrim s).
Proof.
  induction s as [|c r IH]; [reflexivity|].
  unfold trim in *. cbn [find_first_not_of find_last_not_of ltrim].
  unfold blank. destruct (mem_char c trim_set) eqn:Hc.
  - destruct (find_first_not_of r trim_set) as [a|] eqn:Ef; cbn [option_map].
    + destruct (find_last_some _ _ _ Ef) as (b & Eb & Hab).
      rewrite Eb in *. unfold substr in *.
      replace (S b - S a + 1) with (b - a + 1) by lia.
      cbn [substring]. exact IH.
    + exact IH.
  - destruct (find_last_rtrim (String c r)) as [_ Hs].
    cbn [find_last_not_of] in Hs.
    destruct (find_last_not_of r trim_set) as [i|] eqn:El.
    + destruct (Hs (S i) eq_refl) as [Hsub _]. unfold substr.
      replace (S i - 0 + 1) with (S (S i)) by lia. exact Hsub.
    + rewrite Hc in Hs. destruct (Hs 0 eq_refl) as [Hsub _]. unfold substr.
      exact Hsub.
Qed.

Lemma ltrim_split s :
  exists pre, s = (pre ++ ltrim s)%string /\ all_chars blank pre = true.
Proof.
  induction s as [|c r (pre & E & B)]; cbn [ltrim].
  - exists EmptyString. split; reflexivity.
  - destruct (blank c) eqn:Hc.
    + exists (String c pre). cbn [append all_chars]. rewrite Hc, B, <- E.
      split; reflexivity.
    + exists EmptyString. split; reflexivity.
Qed.

Lemma rtrim_split s :
  exists post, s = (rtrim s ++ post)%string /\ all_chars blank post = true.
Proof.
  induction s as [|c r (post & E & B)]; cbn [rtrim].
  - exists EmptyString. split; reflexivity.
  - destruct (rtrim r) as [|d r'] eqn:R.
    + cbn [append] in E. destruct (blank c) eqn:Hc.
      * exists (String c post). cbn [append all_chars].
        rewrite Hc, B, <- E. split; reflexivity.
      * subst post. exists r. split; [reflexivity|exact B].
    + exists post. cbn [append]. cbn [append] in E. rewrite <- E.
      split; [reflexivity|exact B].
Qed.

Lemma ltrim_first s c :
  first_char (ltrim s) = Some c -> blank c = false.
Proof.
  induction s as [|d r IH]; cbn [ltrim]; [discriminate|].
  destruct (blank d) eqn:Hd; [exact IH|].
  cbn [first_char]. intros E. injection E as <-. exact Hd.
Qed.

Lemma rtrim_first s : first_char (ltrim s) = first_char (rtrim (ltrim s)).
Proof.
  destruct (ltrim s) as [|c r] eqn:E; [reflexivity|].
  assert (Hc : blank c = false) by (apply (ltrim_first s); rewrite E; reflexivity).
  cbn [rtrim]. rewrite Hc. destruct (rtrim r); reflexivity.
Qed.

Lemma rtrim_last s c : last_char (rtrim s) = Some c -> blank c = false.
Proof.
  induction s as [|d r IH]; cbn [rtrim]; [discriminate|].
  destruct (rtrim r) as [|e r'] eqn:R.
  - destruct (blank d) eqn:Hd; [discriminate|].
    cbn [last_char]. intros E. injection E as <-. exact Hd.
  - intros E. apply IH. cbn [last_char] in *.
    destruct (last_char r') as [x|]; exact E.
Qed.

Lemma last_char_append q d :
  last_char (q ++ String d EmptyString) = Some d.
Proof. induction q as [|c q IH]; cbn [append last_char]; [|rewrite IH]; reflexivity. Qed.

Lemma last_char_split s d :
  last_char s = Some d -> exists q, s = (q ++ String d EmptyString)%string.
Proof.
  revert d. induction s as [|c r IH]; intros d; cbn [last_char]; [discriminate|].
  destruct (last_char r) as [x|] eqn:L.
  - intros E. injection E as ->. destruct (IH d eq_refl) as [q ->].
    exists (String c q). reflexivity.
  - intros E. injection E as <-. destruct r; [|cbn in L; destruct (last_char r); discriminate].
    exists EmptyString. reflexivity.
Qed.

Lemma trim_trim s : trim (trim s) = trim s.
Proof.
  destruct (trim s) as [|c r] eqn:E; [reflexivity|].
  assert (Hc : blank c = false).
  { apply (ltrim_first s). rewrite rtrim_first, <- trim_structural, E.
    reflexivity. }
  destruct (last_char (String c r)) as [d|] eqn:L.
  2:{ cbn [last_char] in L. destruct (last_char r); discriminate. }
  assert (Hd : blank d = false).
  { apply (rtrim_last (ltrim s)). rewrite <- trim_structural, E. exact L. }
  destruct (last_char_split _ _ L) as [q Eq].
  eapply trim_unchanged; eauto.
Qed.

Lemma ltrim_blank s : all_chars blank s = true <-> ltrim s = EmptyString.
Proof.
  induction s as [|c r IH]; cbn [all_chars ltrim]; [split; reflexivity|].
  destruct (blank c); cbn [andb]; [exact IH|]. split; discriminate.
Qed.

(** X1: [trim] cuts [s] into a run of blanks, the result, and a run of
    blanks (blank: space, tab, carriage return, line feed); the result
    neither starts nor ends with a blank, and it is empty exactly when
    [s] holds blanks only. *)
Theorem trim_spec s :
  (exists pre post,
     s = (pre ++ trim s ++ post)%string /\
     all_chars blank pre = true /\ all_chars blank post = true) /\
  (forall c, first_char (trim s) = Some c -> blank c = false) /\
  (forall c, last_char (trim s) = Some c -> blank c = false) /\
  (trim s = EmptyString <-> all_chars blank s = true).
Proof.
  rewrite trim_structural. split; [|split; [|split]].
  - destruct (ltrim_split s) as (pre & E1 & B1).
    destruct (rtrim_split (ltrim s)) as (post & E2 & B2).
    exists pre, post. rewrite <- E2. auto.
  - intros c. rewrite <- rtrim_first. apply ltrim_first.
  - apply rtrim_last.
  - rewrite ltrim_blank. split.
    + intros E. destruct (ltrim s) as [|c r] eqn:L; [reflexivity|].
      assert (Hc : blank c = false) by (apply (ltrim_first s); rewrite L; reflexivity).
      cbn [rtrim] in E. rewrite Hc in E. destruct (rtrim r); discriminate.
    + intros ->. reflexivity.
Qed.

Section TrimInLoad.
Context {T : Type} `{Repository.Item T}.

(** X2: [trim] is idempotent, so blanks around a line of the file do not
    matter to [load_from_file]: the loop does to a line what it does to
    the trimmed line. *)
Theorem trim_idempotent_in_load line (st : list T * list string) :
  trim (trim line) = trim line /\
  Repository.load_line (trim line) st = Repository.load_line line st.
Proof.
  split; [apply trim_trim|].
  unfold Repository.load_line. rewrite trim_trim. reflexivity.
Qed.

End TrimInLoad.

(** ** [split] *)

(** The loop of [split], read one character at a time. *)
Lemma getlines_cons c r d :
  getlines (String c r) d =
  if Ascii.eqb c d then EmptyString :: getlines r d
  else match getlines r d with
       | [] => [String c EmptyString]
       | cur :: more => String c cur :: more
       end.
Proof.
  rewrite (getlines_step (String c r)). unfold getline. cbn [getline_chars].
  destruct (Ascii.eqb c d); [reflexivity|].
  rewrite (getlines_step r). unfold getline.
  destruct r as [|c' r'].
  - cbn [getline_chars]. rewrite getlines_nil. reflexivity.
  - destruct (getline_chars (String c' r') d) as [cur rest]. reflexivity.
Qed.

Lemma getlines_empty_iff s d : getlines s d = [] <-> s = EmptyString.
Proof.
  split; [|intros ->; apply getlines_nil].
  destruct s as [|c r]; [reflexivity|]. rewrite getlines_cons.
  destruct (Ascii.eqb c d); [discriminate|].
  destruct (getlines r d); discriminate.
Qed.

Lemma getlines_lack_delim s d :
  Forall (fun f => lacks d f = true) (getlines s d).
Proof.
  induction s as [|c r IH]; [rewrite getlines_nil; constructor|].
  rewrite getlines_cons. destruct (Ascii.eqb c d) eqn:E.
  - constructor; [reflexivity|exact IH].
  - destruct (getlines r d) as [|cur more].
    + constructor; [|constructor]. unfold lacks. cbn [all_chars].
      rewrite E. reflexivity.
    + inversion IH as [|x l Hx Hl]; subst. constructor; [|exact Hl].
      unfold lacks in *. cbn [all_chars]. rewrite E, Hx. reflexivity.
Qed.

(** The fields are made of characters of the text. *)
Lemma getlines_all_chars p s d :
  all_chars p s = true -> Forall (fun f => all_chars p f = true) (getlines s d).
Proof.
  induction s as [|c r IH]; [rewrite getlines_nil; constructor|].
  cbn [all_chars]. intros H. apply andb_true_iff in H as [Hc Hr].
  specialize (IH Hr). rewrite getlines_cons. destruct (Ascii.eqb c d).
  - constructor; [reflexivity|exact IH].
  - destruct (getlines r d) as [|cur more].
    + constructor; [|constructor]. cbn [all_chars]. rewrite Hc. reflexivity.
    + inversion IH as [|x l Hx Hl]; subst. constructor; [|exact Hl].
      cbn [all_chars]. rewrite Hc, Hx. reflexivity.
Qed.

Lemma ends_with_cons c r d :
  ends_with d (String c r) =
  match r with
  | EmptyString => Ascii.eqb c d
  | _ => ends_with d r
  end.
Proof.
  unfold ends_with. cbn [last_char]. destruct r as [|c' r']; [reflexivity|].
  destruct (last_char (String c' r')) eqn:L; [reflexivity|].
  cbn [last_char] in L. destruct (last_char r'); discriminate.
Qed.

Lemma join_cons_char c cur more d :
  join d (String c cur :: more) = String c (join d (cur :: more)).
Proof. destruct more; reflexivity. Qed.

Lemma getlines_rebuild s d :
  (ends_with d s = true -> terminated d (getlines s d) = s) /\
  (ends_with d s = false -> join d (getlines s d) = s).
Proof.
  induction s as [|c r [IHt IHj]].
  - rewrite getlines_nil. split; [discriminate|reflexivity].
  - rewrite ends_with_cons, getlines_cons.
    destruct r as [|c' r'].
    + rewrite getlines_nil. destruct (Ascii.eqb c d) eqn:E.
      * apply Ascii.eqb_eq in E. subst c. split; [reflexivity|discriminate].
      * split; [discriminate|reflexivity].
    + destruct (getlines (String c' r') d) as [|cur more] eqn:G.
      { apply getlines_empty_iff in G. discriminate. }
      destruct (Ascii.eqb c d) eqn:E.
      * apply Ascii.eqb_eq in E. subst c. split; intros H.
        -- change (terminated d (EmptyString :: cur :: more))
             with (String d (terminated d (cur :: more))).
           rewrite (IHt H). reflexivity.
        -- change (join d (EmptyString :: cur :: more))
             with (String d (join d (cur :: more))).
           rewrite (IHj H). reflexivity.
      * split; intros H.
        -- change (terminated d (String c cur :: more))
             with (String c (terminated d (cur :: more))).
           rewrite (IHt H). reflexivity.
        -- rewrite join_cons_char, (IHj H). reflexivity.
Qed.

Lemma getlines_count s d :
  List.length (getlines s d) =
  count_char d s + (if empty s || ends_with d s then 0 else 1).
Proof.
  induction s as [|c r IH]; [rewrite getlines_nil; reflexivity|].
  rewrite getlines_cons, ends_with_cons. cbn [count_char empty orb].
  destruct r as [|c' r'].
  - rewrite getlines_nil. destruct (Ascii.eqb c d); reflexivity.
  - cbn [empty orb] in IH.
    destruct (Ascii.eqb c d).
    + cbn [List.length]. rewrite IH. lia.
    + destruct (getlines (String c' r') d) as [|cur more] eqn:G.
      { apply getlines_empty_iff in G. discriminate. }
      cbn [List.length] in *. rewrite IH. lia.
Qed.

(** X3: no field that [split] returns holds the delimiter, and the fields
    give the text back: with the delimiter between them when the text
    does not end with the delimiter, with the delimiter after each of
    them when it does.  [split] returns no field exactly for the empty
    text. *)
Theorem split_rebuild s d :
  Forall (fun f => lacks d f = true) (split s d) /\
  (ends_with d s = false -> join d (split s d) = s) /\
  (ends_with d s = true -> terminated d (split s d) = s) /\
  (split s d = [] <-> s = EmptyString).
Proof.
  unfold split. destruct (getlines_rebuild s d) as [Ht Hj].
  repeat split; auto using getlines_lack_delim; apply getlines_empty_iff.
Qed.

(** X4: the number of fields is the number of delimiters, plus one when
    the text is not empty and does not end with the delimiter; a final
    delimiter opens no further, empty field. *)
Theorem split_count s d :
  List.length (split s d) =
  count_char d s + (if empty s || ends_with d s then 0 else 1).
Proof. apply getlines_count. Qed.

(** ** Books *)

(** X5: [check_out] throws exactly when the book is checked out and
    [return_back] exactly when it is not; a successful call changes the
    flag and nothing else, the other call then undoes it, and repeating
    the same call throws. *)
Theorem check_out_return_back b :
  (throws (check_out b) = true <-> checked_out_ b = true) /\
  (throws (return_back b) = true <-> checked_out_ b = false) /\
  (checked_out_ b = false ->
   exists b',
     check_out b = Ok b' /\ checked_out_ b' = true /\
     id_ b' = id_ b /\ title_ b' = title_ b /\ author_ b' = author_ b /\
     year_ b' = year_ b /\
     return_back b' = Ok b /\ throws (check_out b') = true) /\
  (checked_out_ b = true ->
   exists b',
     return_back b = Ok b' /\ checked_out_ b' = false /\
     id_ b' = id_ b /\ title_ b' = title_ b /\ author_ b' = author_ b /\
     year_ b' = year_ b /\
     check_out b' = Ok b /\ throws (return_back b') = true).
Proof.
  destruct b as [i t a y c]. unfold check_out, return_back, set_checked_out.
  cbn [checked_out_ id_ title_ author_ year_].
  destruct c; cbn [throws]; repeat split; try discriminate; try reflexivity;
    intros _; eexists; repeat split.
Qed.

Lemma count_char_append d (s t : string) :
  count_char d (s ++ t) = count_char d s + count_char d t.
Proof.
  induction s as [|c s IH]; cbn [append count_char]; [reflexivity|].
  rewrite IH. lia.
Qed.

Lemma count_char_lacks d s : lacks d s = true -> count_char d s = 0.
Proof.
  unfold lacks. induction s as [|c s IH]; cbn [all_chars count_char];
    [reflexivity|].
  intros H. apply andb_true_iff in H as [Hc Hs].
  apply negb_true_iff in Hc. rewrite Hc, (IH Hs). reflexivity.
Qed.

Lemma safe_unchanged s : lacks ch_bar s = true -> safe s = s.
Proof.
  unfold safe, lacks. induction s as [|c s IH]; cbn [all_chars replace];
    [reflexivity|].
  intros H. apply andb_true_iff in H as [Hc Hs].
  apply negb_true_iff in Hc. rewrite Hc, (IH Hs). reflexivity.
Qed.

Lemma safe_safe s : safe (safe s) = safe s.
Proof. apply safe_unchanged, safe_lacks_bar. Qed.

Lemma safe_length s : String.length (safe s) = String.length s.
Proof.
  unfold safe. induction s as [|c s IH]; cbn [replace String.length];
    [reflexivity|]. rewrite IH. reflexivity.
Qed.

(** X6: whatever the title and the author hold, the text of a book has
    exactly four vertical bars and [split] finds exactly five fields in
    it: the identity, the two text members with every bar turned into a
    slash, the year and the flag; [trim] leaves it as it is. *)
Theorem serialize_five_fields b :
  count_char ch_bar (BookModel.serialize b) = 4 /\
  split (BookModel.serialize b) ch_bar =
    [to_string_ull (id_ b); safe (title_ b); safe (author_ b);
     to_string_int (year_ b); if checked_out_ b then "1" else "0"]%string /\
  trim (BookModel.serialize b) = BookModel.serialize b.
Proof.
  split; [|split; [apply split_serialize|apply trim_serialize]].
  rewrite serialize_shape.
  repeat (rewrite count_char_append; cbn [count_char]).
  rewrite (count_char_lacks _ _ (digits_lack_bar _ (to_string_ull_digits _))).
  rewrite !(count_char_lacks _ _ (safe_lacks_bar _)).
  rewrite (count_char_lacks ch_bar (to_string_int (year_ b)))
    by (apply to_string_int_lacks; reflexivity).
  rewrite (count_char_lacks ch_bar (flag_text b))
    by (unfold flag_text; destruct (checked_out_ b); reflexivity).
  reflexivity.
Qed.

Lemma escaped_well_typed b : well_typed b -> well_typed (escaped b).
Proof. intros H. exact H. Qed.

Lemma serialize_escaped b :
  BookModel.serialize (escaped b) = BookModel.serialize b.
Proof.
  unfold BookModel.serialize, escaped.
  cbn [id_ title_ author_ year_ checked_out_]. rewrite !safe_safe. reflexivity.
Qed.

Lemma escaped_unchanged b :
  lacks ch_bar (title_ b) = true -> lacks ch_bar (author_ b) = true ->
  escaped b = b.
Proof.
  intros Ht Ha. destruct b as [i t a y c]. unfold escaped.
  cbn [id_ title_ author_ year_ checked_out_] in *.
  rewrite (safe_unchanged _ Ht), (safe_unchanged _ Ha). reflexivity.
Qed.

(** X7: for every book whose identity and year fit their C++ types, also
    one whose title holds a line feed, [deserialize] reads the text of
    the book back as the book with every bar in title and author turned
    into a slash.  That book has the same text, so it is read back as
    itself; a book without bars in its text members is read back
    unchanged. *)
Theorem deserialize_serialize_stable b :
  well_typed b ->
  BookModel.deserialize (BookModel.serialize b) = Ok (escaped b) /\
  BookModel.serialize (escaped b) = BookModel.serialize b /\
  BookModel.deserialize (BookModel.serialize (escaped b)) = Ok (escaped b) /\
  (lacks ch_bar (title_ b) = true -> lacks ch_bar (author_ b) = true ->
   BookModel.deserialize (BookModel.serialize b) = Ok b).
Proof.
  intros W. pose proof (deserialize_serialize b W) as D.
  split; [exact D|]. split; [apply serialize_escaped|]. split.
  - rewrite serialize_escaped. exact D.
  - intros Ht Ha. rewrite D, (escaped_unchanged b Ht Ha). reflexivity.
Qed.

(** ** The repository: adding and finding *)

Section CollectionFacts.
Context {T : Type} `{Repository.Item T}.

Lemma find_app (f : T -> bool) l1 l2 :
  find f (l1 ++ l2) =
  match find f l1 with
  | Some u => Some u
  | None => find f l2
  end.
Proof.
  induction l1 as [|x l1 IH]; cbn [app find]; [reflexivity|].
  destruct (f x); [reflexivity|exact IH].
Qed.

(** X8: [add] puts the object at the end and keeps what was there.  A
    lookup by identity afterwards finds what it found before; only when
    it found nothing and the new object has the identity asked for does
    it find the new object, so an object added under an identity already
    present is never the one [find_by_id] returns. *)
Theorem add_then_find (items_ : list T) (obj : T) (i : Z) :
  Repository.all (Repository.add items_ obj) = Repository.all items_ ++ [obj] /\
  Repository.find_by_id (Repository.add items_ obj) i =
    match Repository.find_by_id items_ i with
    | Some u => Some u
    | None => if Z.eqb (Repository.id obj) i then Some obj else None
    end /\
  (forall p,
     Repository.find_all (Repository.add items_ obj) p =
     Repository.find_all items_ p ++ (if p obj then [obj] else [])).
Proof.
  unfold Repository.all, Repository.add, Repository.find_by_id,
    Repository.find_all.
  split; [reflexivity|]. split.
  - rewrite find_app. cbn [find]. reflexivity.
  - intros p. rewrite filter_app. cbn [filter]. destruct (p obj); reflexivity.
Qed.

(** X11: [find_by_id] returns nothing exactly when no object has the
    identity; otherwise it returns the first object that has it, whatever
    comes later under the same identity. *)
Theorem find_by_id_first (items_ : list T) (i : Z) :
  (Repository.find_by_id items_ i = None <->
   forall u, In u items_ -> Repository.id u <> i) /\
  (forall u,
     Repository.find_by_id items_ i = Some u ->
     Repository.id u = i /\
     exists before after,
       items_ = before ++ u :: after /\
       forall v, In v before -> Repository.id v <> i).
Proof.
  unfold Repository.find_by_id. split.
  - split.
    + intros N u Hu E. apply (find_none _ _ N) in Hu.
      apply Z.eqb_neq in Hu. contradiction.
    + intros N. induction items_ as [|x l IH]; cbn [find]; [reflexivity|].
      destruct (Z.eqb (Repository.id x) i) eqn:E.
      * apply Z.eqb_eq in E. exfalso. apply (N x); [left; reflexivity|exact E].
      * apply IH. intros u Hu. apply N. right. exact Hu.
  - induction items_ as [|x l IH]; cbn [find]; [discriminate|].
    intros u. destruct (Z.eqb (Repository.id x) i) eqn:E.
    + intros S. injection S as <-. apply Z.eqb_eq in E. split; [exact E|].
      exists [], l. split; [reflexivity|]. intros v [].
    + intros S. destruct (IH u S) as (Hid & before & after & -> & Hb).
      split; [exact Hid|]. exists (x :: before), after. split; [reflexivity|].
      intros v [<-|Hv]; [apply Z.eqb_neq; exact E|apply Hb; exact Hv].
Qed.

(** X12: [find_all] returns the objects that satisfy the predicate, in
    the order of the repository; with the predicate true everywhere it
    is [all], and the first object it returns for the test of an
    identity is the one [find_by_id] returns. *)
Theorem find_all_spec (items_ : list T) (p : T -> bool) (i : Z) :
  (forall u, In u (Repository.find_all items_ p) <-> In u items_ /\ p u = true) /\
  (forall l1 l2,
     items_ = l1 ++ l2 ->
     Repository.find_all items_ p =
     Repository.find_all l1 p ++ Repository.find_all l2 p) /\
  Repository.find_all items_ (fun _ => true) = Repository.all items_ /\
  hd_error (Repository.find_all items_ (fun u => Z.eqb (Repository.id u) i)) =
    Repository.find_by_id items_ i.
Proof.
  unfold Repository.find_all, Repository.all, Repository.find_by_id.
  split; [intros u; apply filter_In|]. split; [|split].
  - intros l1 l2 ->. apply filter_app.
  - induction items_ as [|x l IH]; cbn [filter]; [reflexivity|].
    rewrite IH. reflexivity.
  - induction items_ as [|x l IH]; cbn [filter find]; [reflexivity|].
    destruct (Z.eqb (Repository.id x) i); [reflexivity|exact IH].
Qed.

End CollectionFacts.

(** ** The repository: what a load yields *)

Import BookNotions.

Section LoadCount.
Context {T : Type} `{Repository.Item T}.

Lemma load_lines_count lines : forall (items_ items' : list T) cerr cerr',
  Repository.load_lines lines (items_, cerr) = Ok (items', cerr') ->
  List.length items' + List.length cerr' =
  List.length items_ + List.length cerr +
  List.length (filter (fun line => negb (empty (trim line))) lines).
Proof.
  induction lines as [|line more IH]; intros items_ items' cerr cerr' E.
  - cbn [Repository.load_lines] in E. injection E as <- <-. cbn. lia.
  - cbn [Repository.load_lines filter] in E |- *.
    destruct (empty (trim line)) eqn:B; cbn [negb].
    + rewrite load_line_blank in E by exact B. cbn [bind] in E.
      apply IH in E. exact E.
    + destruct (Repository.deserialize (trim line)) as [u|e] eqn:D.
      * rewrite (load_line_good line u) in E by (split; assumption).
        cbn [bind] in E. apply IH in E. rewrite E, length_app. cbn. lia.
      * rewrite (load_line_bad line e) in E by (split; assumption).
        cbn [bind] in E. apply IH in E. rewrite E, length_app. cbn. lia.
Qed.

(** What the loaded objects satisfy follows from what [deserialize]
    returns on the lines. *)
Lemma load_lines_forall (P : T -> Prop) lines :
  (forall line u, In line lines ->
                  Repository.deserialize (trim line) = Ok u -> P u) ->
  forall (items_ items' : list T) cerr cerr',
    Repository.load_lines lines (items_, cerr) = Ok (items', cerr') ->
    Forall P items_ -> Forall P items'.
Proof.
  induction lines as [|line more IH]; intros HP items_ items' cerr cerr' E F.
  - cbn [Repository.load_lines] in E. injection E as <- _. exact F.
  - cbn [Repository.load_lines] in E.
    assert (HP' : forall l u, In l more ->
                    Repository.deserialize (trim l) = Ok u -> P u).
    { intros l u Hl. apply HP. right. exact Hl. }
    destruct (empty (trim line)) eqn:B.
    + rewrite load_line_blank in E by exact B. cbn [bind] in E.
      eapply IH; eauto.
    + destruct (Repository.deserialize (trim line)) as [u|e] eqn:D.
      * rewrite (load_line_good line u) in E by (split; assumption).
        cbn [bind] in E. eapply IH; [exact HP'|exact E|].
        apply Forall_app. split; [exact F|].
        constructor; [|constructor]. eapply HP; [left; reflexivity|exact D].
      * rewrite (load_line_bad line e) in E by (split; assumption).
        cbn [bind] in E. eapply IH; eauto.
Qed.

(** X13: a load accounts for every line that is not blank: the number of
    objects loaded plus the number of warnings written is the number of
    such lines in the source. *)
Theorem load_accounts_for_lines fs filename (prior : list T) text items_ cerr :
  content fs filename = Some text ->
  Repository.load_from_file fs filename prior = Ok (items_, cerr) ->
  List.length items_ + List.length cerr = List.length (record_lines text).
Proof.
  intros C E. unfold Repository.load_from_file, ifstream_open in E.
  rewrite C in E. apply load_lines_count in E. cbn in E. exact E.
Qed.

End LoadCount.

Lemma all_chars_substring p s : forall a n,
  all_chars p s = true -> all_chars p (substring a n s) = true.
Proof.
  induction s as [|c r IH]; intros a n H.
  - destruct a, n; reflexivity.
  - cbn [all_chars] in H. apply andb_true_iff in H as [Hc Hr].
    destruct a as [|a]; cbn [substring].
    + destruct n as [|n]; [reflexivity|]. cbn [all_chars].
      rewrite Hc, (IH 0 n Hr). reflexivity.
    + apply IH. exact Hr.
Qed.

Lemma all_chars_trim p s : all_chars p s = true -> all_chars p (trim s) = true.
Proof.
  intros H. unfold trim, substr.
  destruct (find_first_not_of s trim_set); [|reflexivity].
  destruct (find_last_not_of s trim_set); apply all_chars_substring; exact H.
Qed.

Lemma Forall_nth_default {A} (P : A -> Prop) l d n :
  Forall P l -> P d -> P (nth n l d).
Proof.
  intros F Hd. revert n. induction F as [|x l Hx _ IH]; intros [|n]; cbn [nth];
    auto.
Qed.

Lemma stoi_range s y : stoi s = Ok y -> (INT_MIN <= y <= INT_MAX)%Z.
Proof.
  unfold stoi. destruct (subject s) as [[neg m]|]; [|discriminate].
  cbv zeta.
  destruct (((if neg then - m else m) <? INT_MIN) ||
            ((if neg then - m else m) >? INT_MAX))%Z eqn:E; [discriminate|].
  intros G. injection G as <-. lia.
Qed.

Lemma deserialize_clean line b :
  lacks ch_nl line = true ->
  BookModel.deserialize line = Ok b -> clean b.
Proof.
  intros Hnl. unfold BookModel.deserialize.
  pose proof (getlines_lack_delim line ch_bar) as Fb.
  pose proof (getlines_all_chars _ line ch_bar Hnl) as Fn.
  fold (lacks ch_nl) in Fn. fold (split line ch_bar) in Fb, Fn.
  destruct (List.length (split line ch_bar) <? 5)%nat; [discriminate|].
  destruct (stoull (nth 0 (split line ch_bar) EmptyString)) as [i|e] eqn:Hi;
    [|discriminate].
  apply stoull_range in Hi. cbn [bind].
  destruct (stoi (nth 3 (split line ch_bar) EmptyString)) as [y|e] eqn:Hy;
    [|discriminate].
  apply stoi_range in Hy. cbn [bind]. intros E. injection E as <-.
  assert (B : forall n, lacks ch_bar (nth n (split line ch_bar) EmptyString) = true).
  { intros n. apply (Forall_nth_default (fun f => lacks ch_bar f = true));
      [exact Fb|reflexivity]. }
  assert (N : forall n, lacks ch_nl (nth n (split line ch_bar) EmptyString) = true).
  { intros n. apply (Forall_nth_default (fun f => lacks ch_nl f = true));
      [exact Fn|reflexivity]. }
  unfold clean, well_typed, no_line_feed, make_book, set_checked_out.
  destruct (String.eqb _ _); cbn [id_ title_ author_ year_ checked_out_];
    repeat split; auto; lia.
Qed.

Lemma loaded_clean fs filename text (prior items_ : list Book) cerr :
  content fs filename = Some text ->
  Repository.load_from_file fs filename prior = Ok (items_, cerr) ->
  Forall clean items_.
Proof.
  intros C E. unfold Repository.load_from_file, ifstream_open in E.
  rewrite C in E.
  eapply (load_lines_forall clean); [|exact E|constructor].
  intros line u Hin D. cbn [Repository.deserialize Book_Item] in D.
  eapply deserialize_clean; [|exact D].
  apply all_chars_trim.
  pose proof (getlines_lack_delim text ch_nl) as F.
  rewrite Forall_forall in F. apply F. exact Hin.
Qed.


(** X14: every book a load yields has its identity within the unsigned
    64-bit range and its year within [int], and neither its title nor
    its author holds a vertical bar or a line feed. *)
Theorem loaded_books_clean fs filename text (prior items_ : list Book) cerr :
  content fs filename = Some text ->
  Repository.load_from_file fs filename prior = Ok (items_, cerr) ->
  Forall clean items_ /\ map escaped items_ = items_.
Proof.
  intros C E. pose proof (loaded_clean _ _ _ _ _ _ C E) as F.
  split; [exact F|].
  clear -F. induction F as [|b more (_ & Ht & Ha & _) _ IH]; cbn [map];
    [reflexivity|].
  rewrite IH, (escaped_unchanged b Ht Ha). reflexivity.
Qed.


(** ** The controller *)

(** X16: the constructor never throws, whatever the database file holds:
    it yields a controller for that file, not yet asked to stop, whose
    repository holds what [load_from_file] makes of the file.  Without a
    file the repository is empty, the counter is 1 and nothing is
    written to [cerr]. *)
Theorem construct_never_throws fs dbfile :
  (exists lib cerr,
     Library.construct fs dbfile = Ok (lib, cerr) /\
     Library.dbfile_ lib = dbfile /\
     Library.stop_autosave_ lib = false /\
     Repository.load_from_file fs dbfile [] = Ok (Library.repo_ lib, cerr)) /\
  (content fs dbfile = None ->
   Library.construct fs dbfile =
   Ok ({| Library.dbfile_ := dbfile; Library.next_id_ := 1;
          Library.repo_ := []; Library.stop_autosave_ := false |}, [])).
Proof.
  unfold Library.construct. split.
  - pose proof (load_from_file_never_throws fs dbfile (@nil Book)) as N.
    destruct (Repository.load_from_file fs dbfile []) as [[items_ ce]|e];
      [|discriminate].
    cbn [bind fst snd]. eexists. eexists. repeat split.
  - intros C. unfold Repository.load_from_file, ifstream_open. rewrite C.
    reflexivity.
Qed.

Lemma max_id_bound books b : In b books -> (id_ b <= max_id books)%Z.
Proof.
  unfold max_id. induction books as [|x l IH]; [intros []|].
  cbn [map fold_right]. intros [->|Hb]; [lia|].
  specialize (IH Hb). lia.
Qed.

Lemma max_id_attained books :
  books <> [] -> (forall b, In b books -> (0 <= id_ b)%Z) ->
  exists b, In b books /\ id_ b = max_id books.
Proof.
  unfold max_id. induction books as [|x l IH]; [contradiction|].
  intros _ Hpos. cbn [map fold_right]. destruct l as [|y l'].
  - exists x. split; [left; reflexivity|]. cbn [map fold_right].
    specialize (Hpos x (or_introl eq_refl)). lia.
  - destruct IH as (b & Hb & E); [discriminate|intros; apply Hpos; right; auto|].
    destruct (Z.max_spec (id_ x) (fold_right Z.max 0%Z (map id_ (y :: l'))))
      as [[_ ->]|[_ ->]].
    + exists b. split; [right; exact Hb|exact E].
    + exists x. split; [left; reflexivity|reflexivity].
Qed.

(** X17: when every loaded identity is below the largest 64-bit value,
    the counter the constructor leaves is larger than every identity in
    the repository, so no book has it: [find_by_id] finds nothing under
    it. *)
Theorem next_id_is_fresh fs dbfile lib cerr :
  Library.construct fs dbfile = Ok (lib, cerr) ->
  Forall (fun b => (id_ b < ULLONG_MAX)%Z) (Library.repo_ lib) ->
  (forall b, In b (Library.repo_ lib) -> (id_ b < Library.next_id_ lib)%Z) /\
  (1 <= Library.next_id_ lib <= ULLONG_MAX)%Z /\
  Repository.find_by_id (Library.repo_ lib) (Library.next_id_ lib) = None.
Proof.
  intros E F. destruct (construct_repo _ _ _ _ E) as [N R].
  assert (F' : Forall (fun b => (0 <= id_ b < ULLONG_MAX)%Z) (Library.repo_ lib)).
  { clear -F R. induction R as [|b more Hb _ IH]; [constructor|].
    inversion F; subst. constructor; [lia|auto]. }
  rewrite seed_next_id_max in N by (try exact F'; lia).
  pose proof (max_id_nonneg (Library.repo_ lib)) as P.
  assert (B : forall b, In b (Library.repo_ lib) ->
                        (id_ b < Library.next_id_ lib)%Z).
  { intros b Hb. pose proof (max_id_bound _ _ Hb). lia. }
  split; [exact B|]. split.
  - split; [lia|]. destruct (Library.repo_ lib) as [|x l] eqn:Q.
    + rewrite N. unfold max_id, ULLONG_MAX. cbn. lia.
    + destruct (max_id_attained (x :: l)) as (b & Hb & Eb); [discriminate| |].
      * intros b Hb. rewrite Forall_forall in F'. apply F' in Hb. lia.
      * rewrite Forall_forall in F'. apply F' in Hb. lia.
  - unfold Repository.find_by_id. cbn [Repository.id Book_Item].
    destruct (find _ _) as [u|] eqn:S; [|reflexivity].
    pose proof (find_some _ _ S) as [Hu Heq].
    apply Z.eqb_eq in Heq. apply B in Hu. lia.
Qed.

Lemma max_id_permutation l l' : Permutation l l' -> max_id l = max_id l'.
Proof.
  unfold max_id. induction 1; cbn [map fold_right]; lia.
Qed.

(** X18: when every identity is below the largest 64-bit value, the
    counter does not depend on the order of the records; with that value
    among them it does: the sum wraps to 0 and the records that follow
    decide. *)
Theorem seed_next_id_any_order :
  (forall l l' : list Book,
     Permutation l l' ->
     Forall (fun b => (0 <= id_ b < ULLONG_MAX)%Z) l ->
     Library.seed_next_id l 1 = Library.seed_next_id l' 1) /\
  Library.seed_next_id
    [make_book ULLONG_MAX "T" "A" 2000; make_book 5 "T" "A" 2000] 1 = 6%Z /\
  Library.seed_next_id
    [make_book 5 "T" "A" 2000; make_book ULLONG_MAX "T" "A" 2000] 1 = 0%Z.
Proof.
  split; [|split; reflexivity].
  intros l l' P F.
  assert (F' : Forall (fun b => (0 <= id_ b < ULLONG_MAX)%Z) l').
  { rewrite Forall_forall in *. intros b Hb. apply F.
    eapply Permutation_in; [apply Permutation_sym; exact P|exact Hb]. }
  rewrite !seed_next_id_max by (try assumption; lia).
  rewrite (max_id_permutation _ _ P). reflexivity.
Qed.

(** ** The autosave loop *)

Section LoopFacts.
Import Autosave AutosaveNotions.
Variable World : Type.
Variable save : World -> Result World.

Lemma loop_invariant_init (w : World) : loop_invariant (init w).
Proof. repeat split. discriminate. Qed.

Lemma loop_invariant_step m (st st' : state World) :
  loop_invariant st -> step save m st = Some st' -> loop_invariant st'.
Proof.
  unfold loop_invariant, count_events.
  destruct st as [tp op stop w ce tr]. destruct m as [| |f]; cbn.
  - destruct tp; cbn; try discriminate.
    + intros (I1 & I2 & I3) E. injection E as <-. cbn.
      destruct stop; cbn; repeat split; auto; try discriminate; cbn in *; lia.
    + intros (I1 & I2 & I3) E. injection E as <-. cbn.
      repeat split; auto; try discriminate. cbn in *. lia.
    + intros (I1 & I2 & I3) E.
      destruct (save w) as [w'|e]; injection E as <-; cbn;
        repeat split; auto; try discriminate; cbn in *;
        rewrite ?length_app; cbn; lia.
  - destruct op; cbn; try discriminate.
    + intros (I1 & I2 & I3) E. injection E as <-. cbn. repeat split; auto.
    + destruct tp; try discriminate.
      intros (I1 & I2 & I3) E. injection E as <-. cbn. repeat split; auto.
  - destruct op; cbn; try discriminate.
    intros I E. injection E as <-. cbn. exact I.
Qed.

Lemma loop_invariant_run sched : forall st : state World,
  loop_invariant st -> loop_invariant (run save sched st).
Proof.
  induction sched as [|m more IH]; intros st I; cbn [run]; [exact I|].
  destruct (step save m st) as [st'|] eqn:E.
  - apply IH. eapply loop_invariant_step; eauto.
  - apply IH. exact I.
Qed.

(** X19: in every interleaving the thread leaves its loop only after the
    stop flag was set: a call of [save()] that throws does not end it.
    Each such call writes exactly one message to [cerr], and every call
    of [save()] follows a sleep of its own. *)
Theorem loop_ends_on_request_only (w : World) (sched : list (move World)) :
  (tpc (run save sched (init w)) = Exited ->
   stop_autosave_ (run save sched (init w)) = true) /\
  List.length (cerr (run save sched (init w))) =
    count_events is_failed (trace (run save sched (init w))) /\
  count_events is_wake (trace (run save sched (init w))) =
    count_events is_save (trace (run save sched (init w))) +
    save_pending (tpc (run save sched (init w))).
Proof. exact (loop_invariant_run sched _ (loop_invariant_init w)). Qed.

End LoopFacts.

(** ** Which lines [deserialize] calls bad records *)

Lemma stoull_not_runtime_error s m : stoull s <> Throw (runtime_error m).
Proof.
  unfold stoull. destruct (subject s) as [[neg v]|]; [|discriminate].
  destruct (v >? ULLONG_MAX)%Z; discriminate.
Qed.

Lemma stoi_not_runtime_error s m : stoi s <> Throw (runtime_error m).
Proof.
  unfold stoi. destruct (subject s) as [[neg v]|]; [|discriminate].
  cbv zeta.
  destruct (((if neg then - v else v) <? INT_MIN) ||
            ((if neg then - v else v) >? INT_MAX))%Z; discriminate.
Qed.

(** X20: [deserialize] throws its own error, the bad-record error with
    the line in its text, exactly when the line has fewer than four
    vertical bars, or exactly four of which one ends the line (an empty
    last field does not count as a field). *)
Theorem bad_record_iff line :
  BookModel.deserialize line = Throw (runtime_error ("Bad record: " ++ line)) <->
  (count_char ch_bar line < 4 \/
   (count_char ch_bar line = 4 /\ ends_with ch_bar line = true)).
Proof.
  unfold BookModel.deserialize.
  pose proof (getlines_count line ch_bar) as C. fold (split line ch_bar) in C.
  assert (Z0 : line = EmptyString -> count_char ch_bar line = 0)
    by (intros ->; reflexivity).
  destruct (List.length (split line ch_bar) <? 5)%nat eqn:L.
  - apply Nat.ltb_lt in L. split; [intros _|reflexivity].
    destruct line as [|c r]; [left; cbn; lia|].
    cbn [empty orb] in C. destruct (ends_with ch_bar (String c r)); lia.
  - apply Nat.ltb_ge in L. split.
    + destruct (stoull (nth 0 (split line ch_bar) EmptyString)) as [i|e] eqn:Hi.
      * cbn [bind].
        destruct (stoi (nth 3 (split line ch_bar) EmptyString)) as [y|e] eqn:Hy.
        -- cbn [bind]. discriminate.
        -- cbn [bind]. intros E. injection E as ->.
           exfalso. exact (stoi_not_runtime_error _ _ Hy).
      * cbn [bind]. intros E. injection E as ->.
        exfalso. exact (stoull_not_runtime_error _ _ Hi).
    + intros G. exfalso.
      destruct line as [|c r]; [cbn in C; lia|].
      cbn [empty orb] in C. destruct (ends_with ch_bar (String c r));
        destruct G as [G|[G1 G2]]; try discriminate; lia.
Qed.

Lemma bad_record_iff_witness :
  BookModel.deserialize "7|A|B|1999|" =
  Throw (runtime_error "Bad record: 7|A|B|1999|").
Proof.
  apply (proj2 (bad_record_iff "7|A|B|1999|")).
  right. split; reflexivity.
Defined.

(** ** The further properties at concrete inputs *)

Lemma trim_spec_witness :
  first_char (trim (String ch_tab " a b " ++ endl)) = Some "a"%char /\
  blank "a" = false.
Proof.
  split; [reflexivity|].
  destruct (trim_spec (String ch_tab " a b " ++ endl)) as (_ & F & _).
  exact (F "a"%char eq_refl).
Defined.

Lemma split_rebuild_witness :
  ends_with ch_bar "1|a||b" = false /\
  join ch_bar (split "1|a||b" ch_bar) = "1|a||b"%string /\
  ends_with ch_bar "1|a|" = true /\
  terminated ch_bar (split "1|a|" ch_bar) = "1|a|"%string.
Proof.
  split; [reflexivity|]. split.
  - exact (proj1 (proj2 (split_rebuild "1|a||b" ch_bar)) eq_refl).
  - split; [reflexivity|].
    exact (proj1 (proj2 (proj2 (split_rebuild "1|a|" ch_bar))) eq_refl).
Defined.

Lemma check_out_return_back_witness :
  checked_out_ dune = false /\
  exists b', check_out dune = Ok b' /\ return_back b' = Ok dune.
Proof.
  split; [reflexivity|].
  destruct (check_out_return_back dune) as (_ & _ & H & _).
  destruct (H eq_refl) as (b' & C & _ & _ & _ & _ & _ & R & _).
  exists b'. split; [exact C|exact R].
Defined.

Lemma deserialize_serialize_stable_witness :
  well_typed barred /\
  BookModel.deserialize (BookModel.serialize barred) = Ok (escaped barred).
Proof.
  assert (W : well_typed barred).
  { split; vm_compute; split; discriminate. }
  split; [exact W|].
  exact (proj1 (deserialize_serialize_stable barred W)).
Defined.

Lemma find_by_id_first_witness :
  Repository.find_by_id [barred; dune; make_book 1 "Other" "Book" 2001] 1 =
    Some dune /\
  Repository.id dune = 1%Z.
Proof.
  split; [reflexivity|].
  exact (proj1 (proj2 (find_by_id_first
                         [barred; dune; make_book 1 "Other" "Book" 2001] 1)
                  dune eq_refl)).
Defined.

Lemma find_all_spec_witness :
  Repository.find_all [dune; barred] checked_out_ =
  Repository.find_all [dune] checked_out_ ++
  Repository.find_all [barred] checked_out_.
Proof.
  exact (proj1 (proj2 (find_all_spec [dune; barred] checked_out_ 0))
           [dune] [barred] eq_refl).
Defined.

Lemma load_accounts_for_lines_witness :
  exists (items_ : list Book) cerr,
    Repository.load_from_file (single_file db mixed_text) db [] =
      Ok (items_, cerr) /\
    List.length items_ + List.length cerr = 3.
Proof.
  destruct (Repository.load_from_file (single_file db mixed_text) db [])
    as [[items_ cerr]|e] eqn:E.
  2:{ vm_compute in E. discriminate E. }
  exists items_, cerr. split; [reflexivity|].
  exact (load_accounts_for_lines (single_file db mixed_text) db [] mixed_text
           items_ cerr eq_refl E).
Defined.

Lemma loaded_books_clean_witness :
  exists (items_ : list Book) cerr,
    Repository.load_from_file (single_file db messy_text) db [] =
      Ok (items_, cerr) /\
    Forall clean items_.
Proof.
  destruct (Repository.load_from_file (single_file db messy_text) db [])
    as [[items_ cerr]|e] eqn:E.
  2:{ vm_compute in E. discriminate E. }
  exists items_, cerr. split; [reflexivity|].
  exact (proj1 (loaded_books_clean (single_file db messy_text) db messy_text
                  [] items_ cerr eq_refl E)).
Defined.


Lemma construct_never_throws_witness :
  content (no_files true) db = None /\
  Library.construct (no_files true) db = Ok (empty_library, []).
Proof.
  split; [reflexivity|].
  exact (proj2 (construct_never_throws (no_files true) db) eq_refl).
Defined.

Lemma next_id_is_fresh_witness :
  exists lib cerr,
    Library.construct
      (single_file db ("3|a|b|2000|0" ++ endl ++ "7|c|d|2001|1" ++ endl ++
                       "2|e|f|1999|0" ++ endl)) db = Ok (lib, cerr) /\
    Forall (fun b => (id_ b < ULLONG_MAX)%Z) (Library.repo_ lib) /\
    Repository.find_by_id (Library.repo_ lib) (Library.next_id_ lib) = None.
Proof.
  destruct (Library.construct
              (single_file db ("3|a|b|2000|0" ++ endl ++ "7|c|d|2001|1" ++ endl ++
                               "2|e|f|1999|0" ++ endl)) db)
    as [[lib ce]|e] eqn:E.
  2:{ vm_compute in E. discriminate E. }
  assert (F : Forall (fun b => (id_ b < ULLONG_MAX)%Z) (Library.repo_ lib)).
  { pose proof E as E'. vm_compute in E'. injection E' as <- _.
    repeat (constructor; [reflexivity|]). constructor. }
  exists lib, ce. split; [reflexivity|]. split; [exact F|].
  exact (proj2 (proj2 (next_id_is_fresh _ _ _ _ E F))).
Defined.

Lemma seed_next_id_any_order_witness :
  Library.seed_next_id [make_book 3 "a" "b" 2000; make_book 7 "c" "d" 2001] 1 =
  Library.seed_next_id [make_book 7 "c" "d" 2001; make_book 3 "a" "b" 2000] 1.
Proof.
  apply (proj1 seed_next_id_any_order).
  - apply perm_swap.
  - repeat (constructor; [split; [discriminate|reflexivity]|]). constructor.
Defined.

Lemma loop_ends_on_request_only_witness :
  tpc (run (Library.save empty_library)
         [Thread; Thread; Thread; Destructor; Thread; Destructor]
         (init (no_files true))) = Exited /\
  stop_autosave_
    (run (Library.save empty_library)
       [Thread; Thread; Thread; Destructor; Thread; Destructor]
       (init (no_files true))) = true /\
  List.length
    (cerr (run (Library.save empty_library)
             [Thread; Thread; Thread; Destructor; Thread; Destructor]
             (init (no_files true)))) = 1.
Proof.
  destruct (loop_ends_on_request_only filesystem (Library.save empty_library)
              (no_files true)
              [Thread; Thread; Thread; Destructor; Thread; Destructor])
    as (A & B & _).
  split; [reflexivity|]. split; [exact (A eq_refl)|].
  rewrite B. reflexivity.
Defined.

(* ===================================================================== *)
(** * Saving when the storage may refuse writes *)
(* ===================================================================== *)

Section DeviceFacts.
Context {T : Type} `{Repository.Item T}.

Lemma put_refused (sf : Device.storage * Device.ofstream) s :
  Device.refuses_writes (fst sf) (Device.path (snd sf)) = true ->
  Device.files (fst (Device.put sf s)) = Device.files (fst sf) /\
  Device.refuses_writes (fst (Device.put sf s)) = Device.refuses_writes (fst sf) /\
  Device.path (snd (Device.put sf s)) = Device.path (snd sf).
Proof.
  intros R. unfold Device.put. rewrite R.
  destruct (Device.good (snd sf)); repeat split.
Qed.

Lemma put_all_refused (items_ : list T) : forall sf,
  Device.refuses_writes (fst sf) (Device.path (snd sf)) = true ->
  Device.files
    (fst (fold_left
            (fun sf u => Device.put (Device.put sf (Repository.serialize u)) endl)
            items_ sf)) = Device.files (fst sf).
Proof.
  induction items_ as [|u more IH]; intros sf R; cbn [fold_left];
    [reflexivity|].
  destruct (put_refused sf (Repository.serialize u) R) as (F1 & R1 & P1).
  assert (R1' : Device.refuses_writes
                  (fst (Device.put sf (Repository.serialize u)))
                  (Device.path (snd (Device.put sf (Repository.serialize u))))
                = true) by (rewrite R1, P1; exact R).
  destruct (put_refused _ endl R1') as (F2 & R2 & P2).
  rewrite IH.
  - rewrite F2, F1. reflexivity.
  - rewrite R2, P2. exact R1'.
Qed.

Lemma put_accepted fs r p s :
  r p = false ->
  Device.put ({| Device.files := fs; Device.refuses_writes := r |},
              {| Device.path := p; Device.good := true |}) s =
  ({| Device.files := ofstream_write fs p s; Device.refuses_writes := r |},
   {| Device.path := p; Device.good := true |}).
Proof.
  intros R. unfold Device.put.
  cbn [fst snd Device.good Device.path Device.refuses_writes Device.files].
  rewrite R. reflexivity.
Qed.

Lemma put_all_accepted (items_ : list T) : forall fs r p,
  r p = false ->
  fold_left
    (fun sf u => Device.put (Device.put sf (Repository.serialize u)) endl)
    items_
    ({| Device.files := fs; Device.refuses_writes := r |},
     {| Device.path := p; Device.good := true |}) =
  ({| Device.files := Repository.write_items p items_ fs;
      Device.refuses_writes := r |},
   {| Device.path := p; Device.good := true |}).
Proof.
  induction items_ as [|u more IH]; intros fs r p R; cbn [fold_left];
    [reflexivity|].
  rewrite !put_accepted by exact R. rewrite IH by exact R. reflexivity.
Qed.

(** C5, as the code has it: [save_to_file] tests the stream once, after
    opening it, so it throws exactly when the file does not open.  When
    the file opens and takes the data, it holds afterwards the text of
    every record of the repository, each followed by a line feed, in the
    order of [items_], and no other file changes; that is the outcome of
    [Repository.save_to_file].  When the file opens and takes no data,
    the call returns all the same and leaves the file empty.  The lines
    of the text written are the record texts, one per line, when no
    record text holds a line feed. *)
Theorem save_to_file_outcomes st filename (items_ : list T) :
  (throws (Device.save_to_file st filename items_) = true <->
   write_protected (Device.files st) filename = true) /\
  (write_protected (Device.files st) filename = true ->
   Device.save_to_file st filename items_ =
   Throw (runtime_error ("Failed to open " ++ filename ++ " for writing"))) /\
  (write_protected (Device.files st) filename = false ->
   Device.refuses_writes st filename = false ->
   exists st',
     Device.save_to_file st filename items_ = Ok st' /\
     Repository.save_to_file (Device.files st) filename items_ =
       Ok (Device.files st') /\
     content (Device.files st') filename = Some (file_text items_) /\
     (forall p, p <> filename ->
                content (Device.files st') p = content (Device.files st) p)) /\
  (write_protected (Device.files st) filename = false ->
   Device.refuses_writes st filename = true ->
   exists st',
     Device.save_to_file st filename items_ = Ok st' /\
     content (Device.files st') filename = Some EmptyString) /\
  (Forall (fun u => lacks ch_nl (Repository.serialize u) = true) items_ ->
   getlines (file_text items_) ch_nl = map Repository.serialize items_).
Proof.
  destruct st as [fs r].
  cbn [Device.files Device.refuses_writes].
  unfold Device.save_to_file, Device.open, ofstream_open.
  cbn [Device.files Device.refuses_writes].
  split; [|split; [|split; [|split]]].
  - destruct (write_protected fs filename); cbn [snd Device.good negb throws];
      split; auto; discriminate.
  - intros ->. reflexivity.
  - intros W R. rewrite W. cbn [snd Device.good negb].
    rewrite put_all_accepted by exact R. cbn [fst].
    destruct (save_to_file_ok fs filename items_ W) as (fs' & E & C & O & _).
    eexists. split; [reflexivity|]. cbn [Device.files].
    assert (E' : Repository.save_to_file fs filename items_ =
                 Ok (Repository.write_items filename items_
                       (put_file fs filename EmptyString))).
    { unfold Repository.save_to_file, ofstream_open. rewrite W. reflexivity. }
    rewrite E' in E. injection E as <-.
    split; [exact E'|]. split; [exact C|exact O].
  - intros W R. rewrite W. cbn [snd Device.good negb].
    eexists. split; [reflexivity|].
    rewrite put_all_refused by exact R. cbn [fst Device.files].
    apply content_put_same.
  - apply getlines_file_text.
Qed.

End DeviceFacts.

Lemma save_to_file_outcomes_witness :
  (exists st',
     Device.save_to_file (Device.reliable (no_files false)) db [dune; barred]
       = Ok st' /\
     content (Device.files st') db =
       Some ("1|Dune|Herbert|1965|0" ++ endl ++ "2|A/B|C/D|-5|1" ++ endl)%string) /\
  (exists st',
     Device.save_to_file Device.full_disk db [dune; barred] = Ok st' /\
     content (Device.files st') db = Some EmptyString).
Proof.
  destruct (save_to_file_outcomes (Device.reliable (no_files false)) db
              [dune; barred]) as (_ & _ & A & _).
  destruct (save_to_file_outcomes Device.full_disk db [dune; barred])
    as (_ & _ & _ & B & _).
  split.
  - destruct (A eq_refl eq_refl) as (st' & E & _ & C & _).
    exists st'. split; [exact E|exact C].
  - destruct (B eq_refl eq_refl) as (st' & E & C).
    exists st'. split; [exact E|exact C].
Defined.

(** A disk that is full: the file opens, the data is refused, and the
    call returns without throwing.  A book with a line feed in its
    title: its text takes two lines of the file. *)
Lemma save_to_file_counterexample :
  ~ Device.throws_iff_unwritable Device.full_disk db [dune] /\
  ~ Device.throws_iff_unwritable (Device.reliable (no_files false)) db
      [two_line_book].
Proof.
  split.
  - intros [[_ U] _]. specialize (U eq_refl). vm_compute in U. discriminate U.
  - intros [_ L].
    destruct (Device.save_to_file (Device.reliable (no_files false)) db
                [two_line_book]) as [st'|e] eqn:E.
    2:{ vm_compute in E. discriminate E. }
    destruct (L st' eq_refl) as [_ G]. vm_compute in G. discriminate G.
Qed.

(* ===================================================================== *)
(** * Which lines [deserialize] accepts, told by the text of the line *)
(* ===================================================================== *)

Import FieldNotions.

(** ** Fields: [split] against cutting at every delimiter *)

Lemma delimited_getlines s d :
  delimited s d =
  getlines s d ++ (if empty s || ends_with d s then [EmptyString] else []).
Proof.
  induction s as [|c r IH]; [rewrite getlines_nil; reflexivity|].
  cbn [delimited empty orb]. rewrite getlines_cons, ends_with_cons, IH.
  destruct r as [|c' r'].
  - rewrite getlines_nil. cbn [empty orb app].
    destruct (Ascii.eqb c d); reflexivity.
  - cbn [empty orb].
    destruct (getlines (String c' r') d) as [|cur more] eqn:G.
    { apply getlines_empty_iff in G. discriminate. }
    destruct (Ascii.eqb c d); reflexivity.
Qed.

Lemma nth_delimited s d k :
  k < List.length (getlines s d) ->
  nth k (delimited s d) EmptyString = nth k (getlines s d) EmptyString.
Proof.
  intros L. rewrite delimited_getlines. apply app_nth1. exact L.
Qed.

Lemma too_few_fields_iff line :
  too_few_fields line <-> List.length (split line ch_bar) < 5.
Proof.
  unfold too_few_fields, split. rewrite getlines_count.
  destruct line as [|c r].
  - cbn. split; [lia|left; lia].
  - cbn [empty orb]. destruct (ends_with ch_bar (String c r)).
    + split; [intros [L|[L _]]; lia|].
      intros L. destruct (Nat.eq_dec (count_char ch_bar (String c r)) 4) as [E|E];
        [right; split; [exact E|reflexivity]|left; lia].
    + split; [intros [L|[_ L]]; [lia|discriminate]|intros L; left; lia].
Qed.

(** ** Numbers: the scan of [strtol] against the digits by their places *)

Lemma take_drop p s : s = (take_while p s ++ drop_while p s)%string.
Proof.
  induction s as [|c r IH]; [reflexivity|]. cbn [take_while drop_while].
  destruct (p c); [|reflexivity]. cbn [append]. rewrite <- IH. reflexivity.
Qed.

Lemma take_while_all p s : all_chars p (take_while p s) = true.
Proof.
  induction s as [|c r IH]; [reflexivity|]. cbn [take_while].
  destruct (p c) eqn:E; [|reflexivity]. cbn [all_chars]. rewrite E, IH.
  reflexivity.
Qed.

Lemma drop_while_head p s c r :
  drop_while p s = String c r -> p c = false.
Proof.
  induction s as [|c' r' IH]; cbn [drop_while]; [discriminate|].
  destruct (p c') eqn:E; [exact IH|]. intros G. injection G as <- _. exact E.
Qed.

Lemma skip_space_drop s : skip_space s = drop_while isspace s.
Proof.
  induction s as [|c r IH]; [reflexivity|]. cbn [skip_space drop_while].
  rewrite IH. reflexivity.
Qed.

Lemma take_drop_app p ds rest :
  all_chars p ds = true ->
  (forall c r, rest = String c r -> p c = false) ->
  take_while p (ds ++ rest) = ds /\ drop_while p (ds ++ rest) = rest.
Proof.
  intros A R. induction ds as [|c r IH].
  - cbn [append]. destruct rest as [|c r]; [split; reflexivity|].
    cbn [take_while drop_while]. rewrite (R c r eq_refl). split; reflexivity.
  - cbn [all_chars] in A. apply andb_true_iff in A as [Hc Hr].
    destruct (IH Hr) as [IT ID].
    cbn [append take_while drop_while]. rewrite Hc, IT, ID. split; reflexivity.
Qed.

Lemma scan_take s : forall a,
  scan_digits s a =
  (a * 10 ^ Z.of_nat (String.length (take_while isdigit s)) +
   decimal_value (take_while isdigit s))%Z.
Proof.
  induction s as [|c r IH]; intros a.
  - cbn [scan_digits take_while String.length decimal_value]. cbn. lia.
  - cbn [scan_digits take_while]. destruct (isdigit c).
    + rewrite IH. cbn [String.length decimal_value].
      rewrite Nat2Z.inj_succ, Z.pow_succ_r by lia. ring.
    + cbn [String.length decimal_value]. cbn. lia.
Qed.

Lemma isspace_class c :
  isspace c = true ->
  isdigit c = false /\ Ascii.eqb c "-" = false /\ Ascii.eqb c "+" = false.
Proof.
  destruct c as [[] [] [] [] [] [] [] []]; vm_compute; intros H;
    try discriminate H; repeat split.
Qed.

Lemma not_digit_head rest :
  starts_with_digit rest = false ->
  forall c r, rest = String c r -> isdigit c = false.
Proof. intros S c r ->. exact S. Qed.

(** What the scan makes of a text that starts with a digit. *)
Lemma scan_prefix r :
  starts_with_digit r = true ->
  r = (take_while isdigit r ++ drop_while isdigit r)%string /\
  take_while isdigit r <> EmptyString /\
  all_chars isdigit (take_while isdigit r) = true /\
  starts_with_digit (drop_while isdigit r) = false /\
  scan_digits r 0 = decimal_value (take_while isdigit r).
Proof.
  intros S. split; [apply take_drop|]. split; [|split; [|split]].
  - destruct r as [|c r']; [discriminate|]. cbn [starts_with_digit] in S.
    cbn [take_while]. rewrite S. discriminate.
  - apply take_while_all.
  - destruct (drop_while isdigit r) as [|c r'] eqn:E; [reflexivity|].
    cbn [starts_with_digit]. eapply drop_while_head; eauto.
  - rewrite scan_take. lia.
Qed.

Lemma scan_digits_app digits rest :
  all_chars isdigit digits = true -> starts_with_digit rest = false ->
  scan_digits (digits ++ rest) 0 = decimal_value digits.
Proof.
  intros A S. rewrite scan_take.
  destruct (take_drop_app isdigit digits rest A (not_digit_head rest S))
    as [-> _]. lia.
Qed.

Lemma subject_prefix s neg m :
  subject s = Some (neg, m) -> integer_prefix s neg m.
Proof.
  unfold subject. rewrite skip_space_drop.
  pose proof (take_drop isspace s) as D.
  pose proof (take_while_all isspace s) as A.
  destruct (drop_while isspace s) as [|c r] eqn:E; [discriminate|].
  destruct (Ascii.eqb c "-") eqn:Em.
  - apply Ascii.eqb_eq in Em. subst c.
    destruct (starts_with_digit r) eqn:S; [|discriminate].
    intros G. injection G as <- <-.
    destruct (scan_prefix r S) as (Er & Ne & Ad & Sr & Sc).
    exists (take_while isspace s), "-"%string,
      (take_while isdigit r), (drop_while isdigit r).
    repeat split; auto.
    + cbn [append]. rewrite <- Er. exact D.
    + right. right. split; reflexivity.
  - destruct (Ascii.eqb c "+") eqn:Ep.
    + apply Ascii.eqb_eq in Ep. subst c.
      destruct (starts_with_digit r) eqn:S; [|discriminate].
      intros G. injection G as <- <-.
      destruct (scan_prefix r S) as (Er & Ne & Ad & Sr & Sc).
      exists (take_while isspace s), "+"%string,
        (take_while isdigit r), (drop_while isdigit r).
      repeat split; auto.
      * cbn [append]. rewrite <- Er. exact D.
      * right. left. split; reflexivity.
    + destruct (starts_with_digit (String c r)) eqn:S; [|discriminate].
      intros G. injection G as <- <-.
      destruct (scan_prefix (String c r) S) as (Er & Ne & Ad & Sr & Sc).
      exists (take_while isspace s), EmptyString,
        (take_while isdigit (String c r)), (drop_while isdigit (String c r)).
      repeat split; auto.
      * cbn [append]. rewrite <- Er. exact D.
      * left. split; reflexivity.
Qed.

Lemma skip_space_app ws x :
  all_chars isspace ws = true ->
  (forall c r, x = String c r -> isspace c = false) ->
  skip_space (ws ++ x) = x.
Proof.
  intros A X. rewrite skip_space_drop.
  apply (take_drop_app isspace ws x A X).
Qed.

Lemma prefix_subject s neg m :
  integer_prefix s neg m -> subject s = Some (neg, m).
Proof.
  intros (ws & sign & digits & rest & -> & Aws & Sg & Dne & Adig & Rst & ->).
  destruct digits as [|c dr]; [contradiction|].
  pose proof Adig as Adig'. cbn [all_chars] in Adig'.
  apply andb_true_iff in Adig' as [Hc _].
  destruct (isdigit_class c Hc) as (Hs & Hm & Hp & _).
  pose proof (scan_digits_app (String c dr) rest Adig Rst) as Sc.
  unfold subject.
  destruct Sg as [[-> ->]|[[-> ->]|[-> ->]]]; cbn [append] in *.
  - rewrite skip_space_app; [|exact Aws|].
    2:{ intros c' r' E. injection E as <- _. exact Hs. }
    rewrite Hm, Hp. cbn [starts_with_digit]. rewrite Hc, Sc. reflexivity.
  - rewrite skip_space_app; [|exact Aws|].
    2:{ intros c' r' E. injection E as <- _. reflexivity. }
    change (Ascii.eqb "+" "-") with false.
    change (Ascii.eqb "+" "+") with true. cbv iota.
    cbn [starts_with_digit]. rewrite Hc, Sc. reflexivity.
  - rewrite skip_space_app; [|exact Aws|].
    2:{ intros c' r' E. injection E as <- _. reflexivity. }
    change (Ascii.eqb "-" "-") with true. cbv iota.
    cbn [starts_with_digit]. rewrite Hc, Sc. reflexivity.
Qed.

Lemma subject_iff s neg m :
  subject s = Some (neg, m) <-> integer_prefix s neg m.
Proof. split; [apply subject_prefix|apply prefix_subject]. Qed.

Lemma stoull_rejects_iff s :
  throws (stoull s) = true <-> ~ identity_text s.
Proof.
  rewrite stoull_throws_iff. unfold identity_text.
  destruct (subject s) as [[neg m]|] eqn:E.
  - split.
    + intros G (n' & m' & P & L). apply subject_iff in P.
      rewrite E in P. injection P as <- <-. lia.
    + intros G. destruct (Z_lt_dec ULLONG_MAX m) as [L|L]; [exact L|].
      exfalso. apply G. exists neg, m. split; [apply subject_iff; exact E|lia].
  - split; [|auto]. intros _ (n' & m' & P & _). apply subject_iff in P.
    rewrite E in P. discriminate.
Qed.

Lemma stoi_rejects_iff s :
  throws (stoi s) = true <-> ~ year_text s.
Proof.
  rewrite stoi_throws_iff. unfold year_text.
  destruct (subject s) as [[neg m]|] eqn:E.
  - cbv zeta. split.
    + intros G (n' & m' & P & L). apply subject_iff in P.
      rewrite E in P. injection P as <- <-. lia.
    + intros G.
      destruct (Z_lt_dec (if neg then - m else m) INT_MIN) as [L|L];
        [left; exact L|].
      destruct (Z_lt_dec INT_MAX (if neg then - m else m)) as [L'|L'];
        [right; exact L'|].
      exfalso. apply G. exists neg, m. split; [apply subject_iff; exact E|lia].
  - split; [|auto]. intros _ (n' & m' & P & _). apply subject_iff in P.
    rewrite E in P. discriminate.
Qed.

Lemma stoull_value s neg m :
  integer_prefix s neg m -> (m <= ULLONG_MAX)%Z ->
  stoull s = Ok (if neg then wrap_ull (- m) else m).
Proof.
  intros P L. apply subject_iff in P. unfold stoull. rewrite P.
  destruct (m >? ULLONG_MAX)%Z eqn:G; [lia|reflexivity].
Qed.

Lemma stoi_value s neg m :
  integer_prefix s neg m ->
  (INT_MIN <= (if neg then - m else m) <= INT_MAX)%Z ->
  stoi s = Ok (if neg then (- m)%Z else m).
Proof.
  intros P L. apply subject_iff in P. unfold stoi. rewrite P. cbv zeta.
  destruct (((if neg then - m else m) <? INT_MIN) ||
            ((if neg then - m else m) >? INT_MAX))%Z eqn:G; [lia|reflexivity].
Qed.

(** C6, as the code has it: [deserialize] throws exactly when the line
    has fewer than five fields between vertical bars, an empty field
    after a last bar not being counted, or its first field does not
    begin, after white space and an optional sign, with digits that
    write a number up to 2^64-1, or its fourth field does not begin in
    that way with a number an [int] can hold.  What follows the digits
    in a field is not looked at.  Otherwise it returns the book made of
    the first five fields, a minus sign in the first one wrapping the
    identity around 2^64. *)
Theorem deserialize_throws_iff line :
  (throws (BookModel.deserialize line) = true <->
   too_few_fields line \/
   ~ identity_text (nth 0 (delimited line ch_bar) EmptyString) \/
   ~ year_text (nth 3 (delimited line ch_bar) EmptyString)) /\
  (forall neg0 m0 neg3 m3,
     ~ too_few_fields line ->
     integer_prefix (nth 0 (delimited line ch_bar) EmptyString) neg0 m0 ->
     (m0 <= ULLONG_MAX)%Z ->
     integer_prefix (nth 3 (delimited line ch_bar) EmptyString) neg3 m3 ->
     (INT_MIN <= (if neg3 then - m3 else m3) <= INT_MAX)%Z ->
     BookModel.deserialize line =
     Ok {| id_ := if neg0 then wrap_ull (- m0) else m0;
           title_ := nth 1 (delimited line ch_bar) EmptyString;
           author_ := nth 2 (delimited line ch_bar) EmptyString;
           year_ := if neg3 then (- m3)%Z else m3;
           checked_out_ :=
             String.eqb (nth 4 (delimited line ch_bar) EmptyString) "1" |}).
Proof.
  destruct (deserialize_cases line) as [I O].
  pose proof (too_few_fields_iff line) as F.
  destruct (le_lt_dec 5 (List.length (split line ch_bar))) as [L|L].
  - assert (N : forall k, k < 5 ->
                  nth k (delimited line ch_bar) EmptyString =
                  nth k (split line ch_bar) EmptyString).
    { intros k Hk. apply nth_delimited. unfold split in L. lia. }
    rewrite !N by lia. split.
    + rewrite I, stoull_rejects_iff, stoi_rejects_iff, F. reflexivity.
    + intros neg0 m0 neg3 m3 _ P0 L0 P3 L3.
      apply O; [exact L|apply stoull_value; assumption|
                apply stoi_value; assumption].
  - split.
    + split; [intros _; left; apply F; exact L|].
      intros _. apply I. left. exact L.
    + intros neg0 m0 neg3 m3 G. exfalso. apply G, F. exact L.
Qed.

Lemma deserialize_throws_iff_witness :
  BookModel.deserialize "7abc|T|A| 12.5e3|0" =
  Ok {| id_ := 7; title_ := "T"; author_ := "A"; year_ := 12;
        checked_out_ := false |}.
Proof.
  destruct (deserialize_throws_iff "7abc|T|A| 12.5e3|0") as [_ H].
  apply (H false 7%Z false 12%Z).
  - intros [L|[_ L]]; [vm_compute in L; lia|discriminate L].
  - exists EmptyString, EmptyString, "7"%string, "abc"%string.
    repeat split; try reflexivity; [left; split; reflexivity|discriminate].
  - unfold ULLONG_MAX. lia.
  - exists " "%string, EmptyString, "12"%string, ".5e3"%string.
    repeat split; try reflexivity; [left; split; reflexivity|discriminate].
  - unfold INT_MIN, INT_MAX. lia.
Defined.

(** Five fields of which the last is empty, both numbers whole: the line
    is rejected.  Two fields that only begin with a number: the line is
    accepted. *)
Lemma deserialize_counterexample :
  ~ throws_iff_malformed "1|T|A|2000|" /\
  ~ throws_iff_malformed "7abc|T|A| 12.5e3|0".
Proof.
  split.
  - intros [H _]. destruct (H eq_refl) as [G|[G|G]].
    + vm_compute in G. lia.
    + discriminate G.
    + discriminate G.
  - intros [_ H].
    assert (G : throws (BookModel.deserialize "7abc|T|A| 12.5e3|0") = true).
    { apply H. right. left. reflexivity. }
    discriminate G.
Qed.

(** The message of an exception as a reader of [what()] sees it. *)
Example what_ex :
  what (runtime_error (String "a" (String zero "b"))) = "a"%string.
Proof. reflexivity. Qed.
